(** * Receipt field extraction: a shallow embedding of [app/receipt_processor.py]

    The development follows the Python module function by function.

    Modelling conventions.
    - Text is a list of 8-bit characters.  The classes [\d], [\s], case
      folding and [str.strip] are those of Python on code points below 128;
      other code points are carried through unchanged.
    - A Python [float] is an exact rational ([Q]); binary64 rounding and
      overflow to infinity are not represented.  Every concrete amount that
      appears below is exactly representable in binary64.
    - Python integers are [Z].  Converting between [int] and [str] is
      limited to 4300 digits, CPython's default, beyond which [int] and
      [str] raise [ValueError].
    - A call that can raise returns an [outcome]: the value, or the
      exception that ends the computation.
    - A regular expression is a syntax tree run by a backtracking matcher
      with the priorities of Python's [re] (leftmost start, greedy and lazy
      repetition, ordered alternation, numbered groups).
    - [datetime.strptime] and [strftime] belong to the Python runtime; the
      two date and time standardisers are section variables. *)

From Stdlib Require Import Ascii String ZArith QArith Bool Lia Arith List.
From Stdlib Require Import Permutation Sorted.
Import ListNotations.

Close Scope Q_scope.
Open Scope nat_scope.

(** ** Python strings *)

Module PyStr.

Definition str := list ascii.

Definition L (s : string) : str := list_ascii_of_string s.

Definition code (c : ascii) : nat := nat_of_ascii c.

Definition newline : ascii := ascii_of_nat 10.

Definition is_digit (c : ascii) : bool :=
  (48 <=? code c) && (code c <=? 57).

Definition is_upper (c : ascii) : bool :=
  (65 <=? code c) && (code c <=? 90).

Definition is_lower (c : ascii) : bool :=
  (97 <=? code c) && (code c <=? 122).

Definition is_alpha (c : ascii) : bool := is_upper c || is_lower c.

(** Whitespace of [str.isspace] and of [\s] below code point 128. *)
Definition is_space (c : ascii) : bool :=
  ((9 <=? code c) && (code c <=? 13))
  || ((28 <=? code c) && (code c <=? 32)).

Definition lower_char (c : ascii) : ascii :=
  if is_upper c then ascii_of_nat (code c + 32) else c.

Definition upper_char (c : ascii) : ascii :=
  if is_lower c then ascii_of_nat (code c - 32) else c.

Definition ascii_eqb (a b : ascii) : bool := Ascii.eqb a b.

(** [s.lower()] *)
Definition lower (s : str) : str := map lower_char s.

Fixpoint str_eqb (a b : str) : bool :=
  match a, b with
  | [], [] => true
  | x :: a', y :: b' => ascii_eqb x y && str_eqb a' b'
  | _, _ => false
  end.

(** [s.startswith(p)] *)
Fixpoint startswith (p s : str) : bool :=
  match p, s with
  | [], _ => true
  | x :: p', y :: s' => ascii_eqb x y && startswith p' s'
  | _ :: _, [] => false
  end.

(** [s.endswith(p)] *)
Definition endswith (p s : str) : bool := startswith (rev p) (rev s).

(** [p in s] *)
Fixpoint contains (p s : str) : bool :=
  startswith p s
  || match s with
     | [] => false
     | _ :: s' => contains p s'
     end.

(** [s.find(p)]: the first index where [p] occurs, [-1] when it does not. *)
Fixpoint find_from (p s : str) (i : Z) : Z :=
  if startswith p s then i
  else match s with
       | [] => (-1)%Z
       | _ :: s' => find_from p s' (i + 1)%Z
       end.

Definition find (p s : str) : Z := find_from p s 0%Z.

(** [s[:k]], with Python's reading of a negative bound. *)
Definition slice_to (k : Z) (s : str) : str :=
  if (k <? 0)%Z then firstn (Z.to_nat (Z.of_nat (length s) + k)) s
  else firstn (Z.to_nat k) s.

Fixpoint dropwhile (f : ascii -> bool) (s : str) : str :=
  match s with
  | [] => []
  | c :: s' => if f c then dropwhile f s' else s
  end.

Fixpoint takewhile (f : ascii -> bool) (s : str) : str :=
  match s with
  | [] => []
  | c :: s' => if f c then c :: takewhile f s' else []
  end.

Definition lstrip (s : str) : str := dropwhile is_space s.
Definition rstrip (s : str) : str := rev (dropwhile is_space (rev s)).

(** [s.strip()] *)
Definition strip (s : str) : str := rstrip (lstrip s).

(** [s.split(sep)] for a one-character separator: empty pieces are kept. *)
Fixpoint split_on (sep : ascii) (s : str) : list str :=
  match s with
  | [] => [[]]
  | c :: s' =>
      if ascii_eqb c sep then [] :: split_on sep s'
      else match split_on sep s' with
           | [] => [[c]]
           | w :: ws => (c :: w) :: ws
           end
  end.

(** [s.split(sep, 1)] for a one-character separator. *)
Fixpoint split_once (sep : ascii) (s : str) : list str :=
  match s with
  | [] => [[]]
  | c :: s' =>
      if ascii_eqb c sep then [[]; s']
      else match split_once sep s' with
           | [] => [[c]]
           | w :: ws => (c :: w) :: ws
           end
  end.

(** [s.split()]: maximal runs of non-whitespace. *)
Fixpoint split_ws_aux (cur : str) (s : str) : list str :=
  match s with
  | [] => match cur with [] => [] | _ => [rev cur] end
  | c :: s' =>
      if is_space c
      then match cur with
           | [] => split_ws_aux [] s'
           | _ => rev cur :: split_ws_aux [] s'
           end
      else split_ws_aux (c :: cur) s'
  end.

Definition split_ws (s : str) : list str := split_ws_aux [] s.

(** [s.replace(old, new)] for a one-character [old]. *)
Definition replace (old : ascii) (new : str) (s : str) : str :=
  flat_map (fun c => if ascii_eqb c old then new else [c]) s.

(** ['\n'.join(parts)] *)
Fixpoint join (sep : str) (parts : list str) : str :=
  match parts with
  | [] => []
  | [p] => p
  | p :: ps => p ++ sep ++ join sep ps
  end.

(** [w in s] for a literal [w] *)
Definition has (w : string) (s : str) : bool := contains (L w) s.

(** [any(k in s for k in keywords)] *)
Definition contains_any (keywords : list str) (s : str) : bool :=
  existsb (fun k => contains k s) keywords.

End PyStr.

Import PyStr.

(** ** Regular expressions

    The fragment of Python's [re] syntax used by the program. *)

Module Re.

Inductive cset : Type :=
| CChar (c : ascii)            (* a character listed in a class *)
| CRange (lo hi : ascii)       (* [lo-hi] *)
| CDigit                       (* \d *)
| CSpace.                      (* \s *)

Inductive regex : Type :=
| REmpty
| RLit (c : ascii)
| RSet (neg : bool) (items : list cset)
| RAny                                      (* . : any character but a newline *)
| RBol                                      (* ^ *)
| REol                                      (* $ *)
| RSeq (r1 r2 : regex)
| RAlt (r1 r2 : regex)
| RRep (greedy : bool) (lo : nat) (hi : option nat) (r : regex)
| RGroup (n : nat) (r : regex).

(** The matcher's state: characters consumed so far, text still ahead and the
    text last captured by each numbered group. *)
Record mstate : Type := MState {
  ms_pos : nat;
  ms_rest : str;
  ms_caps : list (nat * str)
}.

Record rmatch : Type := RMatch {
  m_start : nat;
  m_text : str;                 (* group(0) *)
  m_groups : list (nat * str)
}.

Definition cset_in (x : ascii) (i : cset) : bool :=
  match i with
  | CChar c => ascii_eqb c x
  | CRange lo hi => (code lo <=? code x) && (code x <=? code hi)
  | CDigit => is_digit x
  | CSpace => is_space x
  end.

(** Under [re.IGNORECASE] a character matches when either of its cases does. *)
Definition lit_match (ic : bool) (c x : ascii) : bool :=
  if ic then ascii_eqb (lower_char c) (lower_char x) else ascii_eqb c x.

Definition set_match (ic : bool) (neg : bool) (items : list cset) (x : ascii) : bool :=
  let hit y := existsb (cset_in y) items in
  xorb neg (if ic then hit x || hit (lower_char x) || hit (upper_char x) else hit x).

Definition advance (st : mstate) (t : str) : mstate :=
  MState (S (ms_pos st)) t (ms_caps st).

Fixpoint set_cap (n : nat) (v : str) (caps : list (nat * str)) : list (nat * str) :=
  match caps with
  | [] => [(n, v)]
  | (m, w) :: caps' =>
      if Nat.eqb m n then (n, v) :: caps' else (m, w) :: set_cap n v caps'
  end.

Fixpoint get_cap (n : nat) (caps : list (nat * str)) : option str :=
  match caps with
  | [] => None
  | (m, w) :: caps' => if Nat.eqb m n then Some w else get_cap n caps'
  end.

Definition below (hi : option nat) (count : nat) : bool :=
  match hi with
  | None => true
  | Some h => count <? h
  end.

Section Exec.

Variable A : Type.
Variable ic : bool.

(** The iterations of a repetition: [count] rounds are done, [body] runs one
    more round, [k] is what follows the repetition.  A greedy repetition
    tries another round first, a lazy one tries to stop first; a round that
    consumed nothing ends the attempt. *)
Fixpoint rep_loop (body : mstate -> (mstate -> option A) -> option A)
    (greedy : bool) (lo : nat) (hi : option nat) (k : mstate -> option A)
    (fuel count : nat) (st : mstate) {struct fuel} : option A :=
  match fuel with
  | 0 => if lo <=? count then k st else None
  | S fuel' =>
      let more (_ : unit) :=
        if below hi count
        then body st (fun st' =>
               if ms_pos st <? ms_pos st'
               then rep_loop body greedy lo hi k fuel' (S count) st'
               else None)
        else None in
      let stop (_ : unit) := if lo <=? count then k st else None in
      if greedy then
        match more tt with
        | Some a => Some a
        | None => stop tt
        end
      else
        match stop tt with
        | Some a => Some a
        | None => more tt
        end
  end.

(** [exec r st k] runs [r] from [st] and hands every way of matching it, in
    priority order, to the continuation [k]; the first success wins. *)
Fixpoint exec (r : regex) (st : mstate) (k : mstate -> option A) {struct r} : option A :=
  match r with
  | REmpty => k st
  | RLit c =>
      match ms_rest st with
      | x :: t => if lit_match ic c x then k (advance st t) else None
      | [] => None
      end
  | RSet neg items =>
      match ms_rest st with
      | x :: t => if set_match ic neg items x then k (advance st t) else None
      | [] => None
      end
  | RAny =>
      match ms_rest st with
      | x :: t => if ascii_eqb x newline then None else k (advance st t)
      | [] => None
      end
  | RBol => if Nat.eqb (ms_pos st) 0 then k st else None
  | REol =>
      match ms_rest st with
      | [] => k st
      | [x] => if ascii_eqb x newline then k st else None
      | _ => None
      end
  | RSeq r1 r2 => exec r1 st (fun st' => exec r2 st' k)
  | RAlt r1 r2 =>
      match exec r1 st k with
      | Some a => Some a
      | None => exec r2 st k
      end
  | RRep greedy lo hi r' =>
      rep_loop (exec r') greedy lo hi k (length (ms_rest st)) 0 st
  | RGroup n r' =>
      exec r' st (fun st' =>
        k (MState (ms_pos st') (ms_rest st')
             (set_cap n (firstn (ms_pos st' - ms_pos st) (ms_rest st)) (ms_caps st'))))
  end.

End Exec.

Arguments rep_loop {A} body greedy lo hi k fuel count st.
Arguments exec {A} ic r st k.

(** One attempt at a fixed start position. *)
Definition match_at (ic : bool) (r : regex) (pos : nat) (rest : str) : option rmatch :=
  exec ic r (MState pos rest [])
    (fun st' => Some (RMatch pos (firstn (ms_pos st' - pos) rest) (ms_caps st'))).

Fixpoint search_from (ic : bool) (r : regex) (pos : nat) (rest : str) : option rmatch :=
  match match_at ic r pos rest with
  | Some m => Some m
  | None =>
      match rest with
      | [] => None
      | _ :: t => search_from ic r (S pos) t
      end
  end.

(** [re.search(r, s)] and [re.search(r, s, re.IGNORECASE)] *)
Definition search (r : regex) (s : str) : option rmatch := search_from false r 0 s.
Definition isearch (r : regex) (s : str) : option rmatch := search_from true r 0 s.

(** [re.match(r, s)] *)
Definition rmatch_start (r : regex) (s : str) : option rmatch := match_at false r 0 s.

(** [m.group(n)] *)
Definition group (n : nat) (m : rmatch) : str :=
  match n with
  | 0 => m_text m
  | _ => match get_cap n (m_groups m) with
         | Some w => w
         | None => []
         end
  end.

Definition is_some {T : Type} (o : option T) : bool :=
  match o with Some _ => true | None => false end.

(** [re.sub(r, repl, s)]: every non-overlapping match, left to right, is
    replaced.  The patterns substituted by the program never match the empty
    string; an empty match is treated as no match. *)
Fixpoint sub_from (fuel : nat) (r : regex) (repl : str) (pos : nat) (rest : str) : str :=
  match fuel with
  | 0 => rest
  | S fuel' =>
      match match_at false r pos rest with
      | Some m =>
          match length (m_text m) with
          | 0 => match rest with
                 | [] => []
                 | c :: t => c :: sub_from fuel' r repl (S pos) t
                 end
          | n => repl ++ sub_from fuel' r repl (pos + n) (skipn n rest)
          end
      | None =>
          match rest with
          | [] => []
          | c :: t => c :: sub_from fuel' r repl (S pos) t
          end
      end
  end.

Definition sub (r : regex) (repl : str) (s : str) : str :=
  sub_from (S (length s)) r repl 0 s.

(** *** What a successful run looks like

    [run ic r st st'] holds when [r] can take the matcher from [st] to
    [st']; it forgets priorities and upper bounds and keeps what a run
    consumes and captures. *)
Inductive run (ic : bool) : regex -> mstate -> mstate -> Prop :=
| run_empty st : run ic REmpty st st
| run_lit c x t st :
    ms_rest st = x :: t -> lit_match ic c x = true ->
    run ic (RLit c) st (advance st t)
| run_set neg items x t st :
    ms_rest st = x :: t -> set_match ic neg items x = true ->
    run ic (RSet neg items) st (advance st t)
| run_any x t st :
    ms_rest st = x :: t -> ascii_eqb x newline = false ->
    run ic RAny st (advance st t)
| run_bol st : ms_pos st = 0 -> run ic RBol st st
| run_eol st :
    ms_rest st = [] \/ ms_rest st = [newline] -> run ic REol st st
| run_seq r1 r2 st st1 st2 :
    run ic r1 st st1 -> run ic r2 st1 st2 -> run ic (RSeq r1 r2) st st2
| run_alt_l r1 r2 st st' : run ic r1 st st' -> run ic (RAlt r1 r2) st st'
| run_alt_r r1 r2 st st' : run ic r2 st st' -> run ic (RAlt r1 r2) st st'
| run_rep_stop greedy hi r st : run ic (RRep greedy 0 hi r) st st
| run_rep_more greedy lo hi r st st1 st2 :
    run ic r st st1 -> run ic (RRep greedy (pred lo) hi r) st1 st2 ->
    run ic (RRep greedy lo hi r) st st2
| run_group n r st st' :
    run ic r st st' ->
    run ic (RGroup n r) st
      (MState (ms_pos st') (ms_rest st')
         (set_cap n (firstn (ms_pos st' - ms_pos st) (ms_rest st)) (ms_caps st'))).

(** Group [n] does not occur in [r]. *)
Fixpoint no_group (n : nat) (r : regex) : bool :=
  match r with
  | RSeq r1 r2 | RAlt r1 r2 => no_group n r1 && no_group n r2
  | RRep _ _ _ r' => no_group n r'
  | RGroup m r' => negb (Nat.eqb m n) && no_group n r'
  | _ => true
  end.

(** *** Pattern combinators *)

Definition cat (rs : list regex) : regex := fold_right RSeq REmpty rs.
Definition lit (w : string) : regex := cat (map RLit (L w)).
Definition chars (w : string) : regex := RSet false (map CChar (L w)).
Definition digit : regex := RSet false [CDigit].
Definition space : regex := RSet false [CSpace].
Definition opt (r : regex) : regex := RRep true 0 (Some 1) r.
Definition star (r : regex) : regex := RRep true 0 None r.
Definition plus (r : regex) : regex := RRep true 1 None r.
Definition lazy_star (r : regex) : regex := RRep false 0 None r.
Definition rep (lo hi : nat) (r : regex) : regex := RRep true lo (Some hi) r.
Definition alts (rs : list regex) : regex :=
  match rs with
  | [] => REmpty
  | r :: rs' => fold_left RAlt rs' r
  end.

End Re.

Import Re.

(** ** Exceptions *)

Module Exc.

Inductive exn : Type := ValueError | IndexError.

Inductive outcome (A : Type) : Type :=
| Returns (a : A)
| Raises (e : exn).

Arguments Returns {A} a.
Arguments Raises {A} e.

Definition bind {A B : Type} (c : outcome A) (k : A -> outcome B) : outcome B :=
  match c with
  | Returns a => k a
  | Raises e => Raises e
  end.

(** [[f(x) for x in l]], ended by the first exception. *)
Fixpoint traverse {A B : Type} (f : A -> outcome B) (l : list A) : outcome (list B) :=
  match l with
  | [] => Returns []
  | x :: l' =>
      bind (f x) (fun y => bind (traverse f l') (fun ys => Returns (y :: ys)))
  end.

End Exc.

Import Exc.

Notation "x <- c ;; k" := (bind c (fun x => k))
  (at level 61, c at next level, right associativity).
Notation "' p <- c ;; k" := (bind c (fun x => match x with p => k end))
  (at level 61, p pattern, c at next level, right associativity).

(** ** Python numbers *)

Module PyNum.

Definition digit_val (c : ascii) : Z := (Z.of_nat (code c) - 48)%Z.

(** The number written by a string of decimal digits. *)
Definition digits_value (w : str) : Z :=
  fold_left (fun acc c => (acc * 10 + digit_val c)%Z) w 0%Z.

Definition is_nil {T : Type} (l : list T) : bool :=
  match l with [] => true | _ => false end.

Definition pow10 (n : nat) : positive := Z.to_pos (10 ^ Z.of_nat n).

(** [float(w)].  The program only calls [float] on text made of digits and
    ['.'], where Python accepts [digits], [digits.], [digits.digits] and
    [.digits] and raises [ValueError] ([None]) otherwise. *)
Definition py_float (w : str) : option Q :=
  let ip := takewhile is_digit w in
  match dropwhile is_digit w with
  | [] => if is_nil ip then None else Some (inject_Z (digits_value ip))
  | c :: fp =>
      if ascii_eqb c "."%char && forallb is_digit fp && negb (is_nil ip && is_nil fp)
      then Some (Qmake (digits_value (ip ++ fp)) (pow10 (length fp)))
      else None
  end.

(** [sys.int_info.default_max_str_digits] *)
Definition max_str_digits : nat := 4300.

Fixpoint int_body (after_digit : bool) (w : str) : bool :=
  match w with
  | [] => after_digit
  | c :: w' =>
      if is_digit c then int_body true w'
      else if ascii_eqb c "_"%char then after_digit && int_body false w'
      else false
  end.

(** [int(w)]: surrounding whitespace, an optional sign, then digits that
    single underscores may group, at most [max_str_digits] of them, leading
    zeros included; [None] stands for [ValueError]. *)
Definition py_int (w : str) : option Z :=
  let t := strip w in
  let '(sign, body) :=
    match t with
    | c :: b =>
        if ascii_eqb c "-"%char then ((-1)%Z, b)
        else if ascii_eqb c "+"%char then (1%Z, b)
        else (1%Z, t)
    | [] => (1%Z, t)
    end in
  if int_body false body
     && (length (filter is_digit body) <=? max_str_digits)
  then Some (sign * digits_value (filter is_digit body))%Z
  else None.

(** [int(w)] outside any [try]. *)
Definition int_call (w : str) : outcome Z :=
  match py_int w with
  | Some n => Returns n
  | None => Raises ValueError
  end.

Definition Qltb (a b : Q) : bool := negb (Qle_bool b a).

(** [int(n * 0.15)] and [int(n * 0.85)] for a list length [n]: the binary64
    product truncates to the same integer as the exact one. *)
Definition pct15 (n : nat) : Z := (Z.of_nat n * 15 / 100)%Z.
Definition pct85 (n : nat) : Z := (Z.of_nat n * 85 / 100)%Z.

(** [range(lo, hi)] *)
Definition range (lo hi : Z) : list nat :=
  seq (Z.to_nat lo) (Z.to_nat (hi - lo)).

End PyNum.

Import PyNum.

(** ** The receipt processor *)

Inductive receipt_type : Type :=
| GOMACHI | CHATIME | SUSHIGO | HOKBEN | INDOMARET | WARUNG_CE | UNKNOWN.

Inductive category : Type :=
| FOOD | BEVERAGE | SNACK | GROCERY | HOUSEHOLD | PERSONAL_CARE | OTHER.

Module Payment.
Inductive method : Type :=
| CASH | CARD | DEBIT | CREDIT | QR_PAYMENT | OVO | GOPAY | DANA | BCA | MANDIRI
| UNKNOWN.
End Payment.

(** A bounding box: four corner points [(x, y)], top-left first. *)
Definition point : Type := (Q * Q)%type.

Record quad : Type := Quad { p0 : point; p1 : point; p2 : point; p3 : point }.

(** One line of the OCR engine's answer: [[position, (text, confidence)]]. *)
Record ocr_line : Type := OcrLine {
  ol_position : quad;
  ol_text : str;
  ol_confidence : Q
}.

(** An element of [text_results]. *)
Record text_result : Type := TextResult {
  text : str;
  position : quad;
  confidence : Q
}.

Record item : Type := Item {
  name : str;
  quantity : Z;
  price : Q;
  category_of : category
}.

Record totals : Type := Totals {
  subtotal : option Q;
  tax : option Q;
  service_charge : option Q;
  total : option Q
}.

(** The dictionary returned on success. *)
Record receipt : Type := Receipt {
  r_merchant_name : str;
  r_receipt_type : receipt_type;
  r_date : str;
  r_time : str;
  r_items : list item;
  r_subtotal : option Q;
  r_tax : option Q;
  r_service_charge : option Q;
  r_total : Q;
  r_payment_method : Payment.method;
  r_raw_text : str
}.

(** The two dictionaries [process_receipt] can return: [{'success': False,
    'error': ...}] and [{'success': True, ...}]. *)
Inductive result : Type :=
| Failure (error : str)
| Success (r : receipt).

Definition success (res : result) : bool :=
  match res with Failure _ => false | Success _ => true end.

(** The keys of the returned dictionary, in insertion order. *)
Definition keys (res : result) : list string :=
  match res with
  | Failure _ => ["success"; "error"]%string
  | Success _ =>
      ["success"; "merchant_name"; "receipt_type"; "date"; "time"; "items";
       "subtotal"; "tax"; "service_charge"; "total"; "payment_method";
       "raw_text"]%string
  end.

(** *** [__init__]: patterns and tables *)

(** [(\d{1,3}(?:[.,]\d{3})*(?:[.,]\d{0,3}))], the amount shared by the price
    and totals patterns, captured as group [n]. *)
Definition amount (n : nat) : regex :=
  RGroup n (cat [rep 1 3 digit;
                 star (cat [chars ".,"; rep 3 3 digit]);
                 cat [chars ".,"; rep 0 3 digit]]).

(** [(?:Rp\.?|Rp)?] *)
Definition rp_prefix : regex :=
  opt (RAlt (cat [lit "Rp"; opt (RLit "."%char)]) (lit "Rp")).

(** [\d{1,2}[-/.]\d{1,2}[-/.]\d{2,4}] *)
Definition numeric_date : regex :=
  cat [rep 1 2 digit; chars "-/."; rep 1 2 digit; chars "-/."; rep 2 4 digit].

(** [\d{1,2}:\d{2}(?::\d{2})?] *)
Definition clock_time : regex :=
  cat [rep 1 2 digit; RLit ":"%char; rep 2 2 digit;
       opt (cat [RLit ":"%char; rep 2 2 digit])].

Definition letter : regex := RSet false [CRange "A"%char "Z"%char; CRange "a"%char "z"%char].

(** [self.date_pattern] *)
Definition date_pattern : regex :=
  RGroup 1 (RAlt numeric_date
                 (cat [rep 1 2 digit; plus space; plus letter; plus space; rep 2 4 digit])).

(** [self.time_pattern] *)
Definition time_pattern : regex := RGroup 1 clock_time.

(** [self.price_pattern] *)
Definition price_pattern : regex := cat [rp_prefix; star space; amount 1].

(** [self.non_item_keywords] *)
Definition non_item_keywords : list str := map L
  ["total"; "subtotal"; "sub total"; "pajak"; "tax"; "service";
   "charge"; "amount"; "jumlah"; "tunai"; "cash"; "card"; "kartu";
   "debit"; "credit"; "kredit"; "change"; "kembalian"; "kembali";
   "date"; "time"; "tanggal"; "waktu"; "receipt"; "invoice";
   "customer"; "pelanggan"; "thank"; "terima kasih"; "sales";
   "queue"; "antrian"; "no."; "nomor"; "table"; "meja"; "rcpt";
   "bill"; "order"; "cashier"; "kasir"; "pax"; "guest"; "phone";
   "telp"; "address"; "alamat"; "jalan"; "street"; "kota"; "city";
   "provinsi"; "province"; "kode pos"; "postal code"; "zip";
   "npwp"; "tax id"; "produk"; "product"; "item"; "qty"; "quantity";
   "harga"; "price"; "disc"; "discount"; "potongan"; "ppn"; "vat";
   "dpp"; "pbj"; "gedung"; "building"; "menara"; "tower"; "plaza";
   "mall"; "kec"; "kecamatan"; "district"; "kelurahan"; "desa";
   "village"; "rt"; "rw"; "blok"; "block"; "jl"; "jln"; "jalan";
   "street"; "avenue"; "lane"; "road"; "boulevard"; "highway";
   "kabupaten"; "regency"; "kota"; "city"; "provinsi"; "province";
   "indonesia"; "jakarta"; "bandung"; "surabaya"; "medan"; "makassar";
   "semarang"; "palembang"; "tangerang"; "depok"; "bekasi"; "batam";
   "pekanbaru"; "bogor"; "padang"; "malang"; "samarinda"; "tasikmalaya";
   "pontianak"; "banjarmasin"; "balikpapan"; "manado"; "denpasar";
   "serang"; "jambi"; "bengkulu"; "ambon"; "palu"; "mataram";
   "kupang"; "jayapura"; "ternate"; "tanjung pinang"; "pangkal pinang";
   "gorontalo"; "mamuju"; "kendari"; "banda aceh"; "tanjung selor";
   "manokwari"; "sofifi"; "mamuju"; "nabire"; "merauke"; "sorong";
   "biak"; "timika"; "wamena"; "fakfak"; "serui"; "tembagapura";
   "subtota1"; "subtota2"; "subtota3"; "subtota4"; "subtota5";
   "subtota6"; "subtota7"; "subtota8"; "subtota9"; "subtota0"]%string.

(** [self.categories], in insertion order. *)
Definition categories : list (category * list str) :=
  [(FOOD, map L ["nasi"; "mie"; "ayam"; "daging"; "ikan"; "sayur"; "sushi";
                 "ramen"; "butadon"; "gyoza"; "chicken"; "beef"; "fish";
                 "rice"; "soup"]%string);
   (BEVERAGE, map L ["teh"; "tea"; "kopi"; "coffee"; "air"; "water"; "jus";
                     "juice"; "milk"; "susu"; "cappuccino"; "latte";
                     "espresso"; "boba"; "bubble"]%string);
   (SNACK, map L ["keripik"; "chips"; "kue"; "cake"; "coklat"; "chocolate";
                  "permen"; "candy"; "cookie"; "biskuit"; "biscuit"]%string);
   (GROCERY, map L ["beras"; "rice"; "minyak"; "oil"; "gula"; "sugar";
                    "tepung"; "flour"; "telur"; "egg"]%string);
   (HOUSEHOLD, map L ["sabun"; "soap"; "deterjen"; "detergent"; "tissue";
                      "pembersih"; "cleaner"; "sikat"; "brush"]%string);
   (PERSONAL_CARE, map L ["shampo"; "shampoo"; "sikat"; "brush"; "pasta";
                          "gigi"; "tooth"; "deodorant"; "lotion"]%string)].

(** *** [extract_text]

    The part after the OCR call: the engine's lines become [text_results]
    and the newline-joined [full_text], both in detection order. *)
Definition extract_text (lines : list ocr_line) : list text_result * str :=
  (map (fun l => TextResult (ol_text l) (ol_position l) (ol_confidence l)) lines,
   join [newline] (map ol_text lines)).

(** [x['position'][0][1]] *)
Definition top_y (t : text_result) : Q := snd (p0 (position t)).

(** [sorted(text_results, key=lambda x: x['position'][0][1])]: stable. *)
Fixpoint insert_by_y (t : text_result) (l : list text_result) : list text_result :=
  match l with
  | [] => [t]
  | u :: l' =>
      if Qle_bool (top_y t) (top_y u) then t :: u :: l'
      else u :: insert_by_y t l'
  end.

Definition sorted_by_y (l : list text_result) : list text_result :=
  fold_right insert_by_y [] l.

(** *** [identify_receipt_type] *)
Definition identify_receipt_type (full_text : str) : receipt_type :=
  let text_lower := lower full_text in
  if has "gomachi" text_lower || has "japanese ramen" text_lower
     || has "gemachi" text_lower then GOMACHI
  else if has "chatime" text_lower || has "milk tea" text_lower
          || has "chatine" text_lower then CHATIME
  else if has "sushigo" text_lower || has "one price sushi" text_lower then SUSHIGO
  else if has "hokben" text_lower || has "hoka ichiman" text_lower then HOKBEN
  else if has "indomaret" text_lower || has "indomarco" text_lower then INDOMARET
  else if has "warung ce" text_lower || has "goldfinch" text_lower then WARUNG_CE
  else UNKNOWN.

(** *** [extract_merchant_name] *)

(** The test made on one of the top lines, and what is returned when it
    succeeds. *)
Definition merchant_hit (rt : receipt_type) (txt : str) : option str :=
  match rt with
  | GOMACHI =>
      if has "Gomachi" txt || has "GOMACHI" txt || has "Gemachi" txt
      then Some (L "Gomachi") else None
  | CHATIME =>
      if has "Chatime" txt || has "CHATIME" txt || has "Chatine" txt
      then Some (L "Chatime") else None
  | SUSHIGO => if has "SUSHIGO" txt || has "Sushigo" txt then Some txt else None
  | HOKBEN => if has "HOKBEN" txt || has "HokBen" txt then Some txt else None
  | INDOMARET => if has "INDOMARET" txt || has "Indomaret" txt then Some txt else None
  | WARUNG_CE => if has "Warung Ce" txt || has "WARUNG CE" txt then Some txt else None
  | UNKNOWN => None
  end.

(** [for i in range(min(5, len(sorted_text)))], leaving at the first hit. *)
Fixpoint merchant_loop (rt : receipt_type) (sorted_text : list text_result)
    (indices : list nat) : option str :=
  match indices with
  | [] => None
  | i :: indices' =>
      match nth_error sorted_text i with
      | Some t =>
          match merchant_hit rt (text t) with
          | Some m => Some m
          | None => merchant_loop rt sorted_text indices'
          end
      | None => merchant_loop rt sorted_text indices'
      end
  end.

Definition extract_merchant_name (text_results : list text_result)
    (rt : receipt_type) : str :=
  let sorted_text := sorted_by_y text_results in
  match merchant_loop rt sorted_text (seq 0 (Nat.min 5 (length sorted_text))) with
  | Some m => m
  | None =>
      match sorted_text with
      | t :: _ => text t
      | [] => L "Unknown Merchant"
      end
  end.

(** *** [is_valid_item_name] *)

Definition starts (w : string) : regex := RSeq RBol (lit w).

(** [non_item_patterns] *)
Definition non_item_patterns : list regex :=
  map starts ["rcpt"; "receipt"; "invoice"; "bill"; "order"; "subtotal"]%string
  ++ [cat [RBol; lit "sub"; star space; lit "total"]]
  ++ map starts ["total"; "pajak"; "tax";
       "service"; "charge"; "amount"; "jumlah"; "tunai";
       "cash"; "card"; "kartu"; "debit"; "credit"; "kredit";
       "change"; "kembalian"; "kembali"; "date"; "time";
       "tanggal"; "waktu"; "customer"; "pelanggan"; "thank"]%string
  ++ [cat [RBol; lit "terima"; star space; lit "kasih"]]
  ++ map starts ["sales"; "queue"; "antrian"; "no.";
       "nomor"; "table"; "meja"; "produk"; "product";
       "qty"; "quantity"; "harga"; "price"; "disc"; "discount";
       "potongan"; "ppn"; "vat"; "dpp"; "pbj"]%string
  ++ [cat [RBol; lit "subtota"; digit]]
  ++ map starts ["kec."; "kel."; "jl."; "jln."; "rt."; "rw.";
       "blok"; "gedung"; "menara"; "plaza"; "mall"; "edc"; "bca"; "scrp";
       "pb1rp"; "sub"]%string.

(** [^\d+(\s*\d+)*$] *)
Definition only_numbers : regex :=
  cat [RBol; plus digit; star (RGroup 1 (cat [star space; plus digit])); REol].

(** [Rp\.?\s*\d+] *)
Definition rupiah_amount : regex :=
  cat [lit "Rp"; opt (RLit "."%char); star space; plus digit].

(** [\d{5}] *)
Definition five_digits : regex := rep 5 5 digit.

Definition is_valid_item_name (txt : str) : bool :=
  if length txt <? 2 then false
  else if is_some (rmatch_start only_numbers txt) then false
  else if is_some (search rupiah_amount txt) then false
  else
    let text_lower := lower txt in
    if existsb (fun p => is_some (search p text_lower)) non_item_patterns then false
    else if existsb (fun k => contains k text_lower) non_item_keywords then false
    else if is_some (search numeric_date txt) then false
    else if is_some (search clock_time txt) then false
    else if is_some (search five_digits txt) then false
    else
      let words := split_ws (strip txt) in
      if match words with
         | w :: _ => str_eqb (lower w) (L "less")
         | [] => false
         end
      then false
      else if match words with
              | [_; w] => str_eqb (lower w) (L "less")
              | _ => false
              end
      then false
      else true.

(** *** [fix_price_format] *)

(** [re.sub(r'[^\d.,]', '', price_str)] *)
Definition strip_non_numeric (price_str : str) : str :=
  sub (RSet true [CDigit; CChar "."%char; CChar ","%char]) [] price_str.

(** The branch on the separators present. *)
Definition fix_separators (price_str : str) : str :=
  if contains (L ",") price_str && contains (L ".") price_str then
    replace ","%char (L ".") (replace "."%char [] price_str)
  else if contains (L ",") price_str then
    if endswith (L ",00") price_str || endswith (L ",0") price_str
    then replace ","%char (L ".") price_str
    else replace ","%char [] price_str
  else price_str.

Definition fix_price_format (price_str : str) : Q :=
  let price_str := fix_separators (strip_non_numeric price_str) in
  match py_float price_str with
  | None => 0%Q
  | Some price =>
      if Qltb 0 price && Qltb price 1000 then (price * 1000)%Q else price
  end.

(** *** [extract_quantity_from_name] *)

(** [^(\d+)(\s{0,})(.+)$], the middle group written with a star in the source. *)
Definition quantity_prefix : regex :=
  cat [RBol; RGroup 1 (plus digit); RGroup 2 (star space);
       RGroup 3 (plus RAny); REol].

Definition extract_quantity_from_name (item_name : str) : outcome (Z * str) :=
  match rmatch_start quantity_prefix item_name with
  | Some m =>
      quantity <- int_call (group 1 m) ;;
      Returns (quantity, group 3 m)
  | None => Returns (1%Z, item_name)
  end.

(** *** [categorize_item] *)
Definition categorize_item (item_name : str) : category :=
  let item_lower := lower item_name in
  match List.find (fun ck => contains_any (snd ck) item_lower) categories with
  | Some ck => fst ck
  | None => OTHER
  end.

(** A [for] loop whose body appends at most one item per round and reads
    nothing of the list built so far; an exception in a round ends the
    loop. *)
Fixpoint collect {T : Type} (body : T -> outcome (option item)) (rounds : list T)
    : outcome (list item) :=
  match rounds with
  | [] => Returns []
  | x :: rounds' =>
      o <- body x ;;
      items <- collect body rounds' ;;
      Returns (match o with Some it => it :: items | None => items end)
  end.

(** [enumerate(lines)] *)
Definition enumerate {T : Type} (l : list T) : list (nat * T) :=
  combine (seq 0 (length l)) l.

(** [(\d+)\s*[xX]] *)
Definition qty_marker : regex :=
  cat [RGroup 1 (plus digit); star space; chars "xX"].

(** [^\d+\s*] *)
Definition leading_digits : regex := cat [RBol; plus digit; star space].

(** [\s*[xX]\s*] *)
Definition x_marker : regex := cat [star space; chars "xX"; star space].

(** [^\d+\s*[xX]\s*] *)
Definition leading_qty_marker : regex :=
  cat [RBol; plus digit; star space; chars "xX"; star space].

(** *** [extract_items_from_chatime_receipt] *)

(** [item_pattern]; the optional group [(?:$$[A-Za-z]$$)?] is kept as written. *)
Definition chatime_item_pattern : regex :=
  cat [RGroup 1 (plus digit); star space; chars "xX"; star space;
       RGroup 2 (plus (RSet false [CRange "A"%char "Z"%char;
                                   CRange "a"%char "z"%char; CSpace]));
       opt (cat [REol; REol; letter; REol; REol]);
       star space; amount 3].

(** [^\s*\d+(?:[.,]\d+)*\s*$] *)
Definition bare_number : regex :=
  cat [RBol; star space; plus digit; star (cat [chars ".,"; plus digit]);
       star space; REol].

Definition chatime_pattern_item (lines : list str) (il : nat * str)
    : outcome (option item) :=
  let '(i, line) := il in
  match search chatime_item_pattern line with
  | Some m =>
      quantity <- int_call (group 1 m) ;;
      let item_name := strip (group 2 m) in
      let price := fix_price_format (group 3 m) in
      let item_name :=
        match nth_error lines (i + 1) with
        | Some next_line =>
            if has "SUGAR" next_line
            then item_name ++ L " (" ++ strip next_line ++ L ")"
            else item_name
        | None => item_name
        end in
      Returns (Some (Item item_name quantity price (categorize_item item_name)))
  | None => Returns None
  end.

(** One round of the second loop; its [int] sits in a [try] whose handler
    moves on to the next line. *)
Definition chatime_x_item (lines : list str) (il : nat * str) : option item :=
  let '(i, line) := il in
  if has "x" (lower line)
     && negb (contains_any (map L ["subtotal"; "total"; "tax"]%string) (lower line))
  then
    let price_match := search price_pattern line in
    let price :=
      match price_match with
      | Some m => fix_price_format (group 1 m)
      | None =>
          match nth_error lines (i + 1) with
          | Some next_line =>
              if is_some (rmatch_start bare_number (strip next_line))
              then fix_price_format (strip next_line)
              else 0%Q
          | None => 0%Q
          end
      end in
    if Qltb 0 price then
      match split_once "x"%char line with
      | [part0; part1] =>
          match py_int (strip part0) with
          | Some quantity =>
              let item_name := strip part1 in
              let item_name :=
                match price_match with
                | Some m =>
                    let before := strip (slice_to (find (group 0 m) line) line) in
                    if has "x" before
                    then strip (nth 1 (split_once "x"%char before) [])
                    else before
                | None => item_name
                end in
              Some (Item item_name quantity price (categorize_item item_name))
          | None => None
          end
      | _ => None
      end
    else None
  else None.

Definition extract_items_from_chatime_receipt (text_results : list text_result)
    (full_text : str) : outcome (list item) :=
  let lines := split_on newline full_text in
  items <- collect (chatime_pattern_item lines) (enumerate lines) ;;
  if is_nil items
  then collect (fun il => Returns (chatime_x_item lines il)) (enumerate lines)
  else Returns items.

(** *** [extract_items_alternative] *)

Definition footer_keywords : list str :=
  map L ["subtotal"; "sub total"; "total"; "pajak"; "tax"]%string.

(** [int(qty_match.group(1))] when the marker is found, else 1. *)
Definition marker_quantity (line : str) : outcome Z :=
  match search qty_marker line with
  | Some m => int_call (group 1 m)
  | None => Returns 1%Z
  end.

Definition alternative_item (lines : list str) (il : nat * str)
    : outcome (option item) :=
  let '(i, line) := il in
  if i <? 3 then Returns None
  else if contains_any footer_keywords (lower line) then Returns None
  else
    match search price_pattern line with
    | Some price_match =>
        let price := fix_price_format (group 1 price_match) in
        let item_name := strip (slice_to (find (group 0 price_match) line) line) in
        item_name <-
          (if is_nil item_name && (0 <? i) then
             match nth_error lines (i - 1) with
             | Some prev_line =>
                 Returns (if is_valid_item_name prev_line then prev_line
                          else item_name)
             | None => Raises IndexError
             end
           else Returns item_name) ;;
        quantity <- marker_quantity line ;;
        if is_valid_item_name item_name then
          '(name_quantity, cleaned_item_name) <- extract_quantity_from_name item_name ;;
          let quantity := if (1 <? name_quantity)%Z then name_quantity else quantity in
          let item_name := if (1 <? name_quantity)%Z then cleaned_item_name else item_name in
          let item_name := sub leading_digits [] item_name in
          let item_name := sub leading_qty_marker [] item_name in
          Returns (Some (Item item_name quantity price (categorize_item item_name)))
        else Returns None
    | None => Returns None
    end.

(** The quantity and the (possibly shortened) line of the two per-merchant
    scans. *)
Definition marker_or_prefix_quantity (line : str) : outcome (Z * str) :=
  match search qty_marker line with
  | Some m =>
      quantity <- int_call (group 1 m) ;;
      Returns (quantity, line)
  | None =>
      '(name_quantity, cleaned_line) <- extract_quantity_from_name (strip line) ;;
      Returns (if (1 <? name_quantity)%Z then (name_quantity, cleaned_line)
               else (1%Z, line))
  end.

Definition sushigo_item (il : nat * str) : outcome (option item) :=
  let '(_, line) := il in
  if has "PIRING" line || has "PLATE" line then
    match search price_pattern line with
    | Some price_match =>
        let price := fix_price_format (group 1 price_match) in
        '(quantity, line) <- marker_or_prefix_quantity line ;;
        Returns (if is_valid_item_name (strip line)
                 then Some (Item (strip line) quantity price FOOD)
                 else None)
    | None => Returns None
    end
  else Returns None.

Definition gomachi_item (lines : list str) (il : nat * str)
    : outcome (option item) :=
  let '(i, line) := il in
  if has "BUTADON" line || has "RAMEN" line || has "GYOZA" line then
    let price :=
      match search price_pattern line with
      | Some price_match => fix_price_format (group 1 price_match)
      | None =>
          match nth_error lines (i + 1) with
          | Some next_line =>
              match search price_pattern next_line with
              | Some price_match => fix_price_format (group 1 price_match)
              | None => 0%Q
              end
          | None => 0%Q
          end
      end in
    if Qltb 0 price && is_valid_item_name (strip line) then
      '(quantity, line) <- marker_or_prefix_quantity line ;;
      Returns (Some (Item (strip line) quantity price FOOD))
    else Returns None
  else Returns None.

Definition extract_items_alternative (full_text : str) (rt : receipt_type)
    : outcome (list item) :=
  let lines := split_on newline full_text in
  items <- collect (alternative_item lines) (enumerate lines) ;;
  match rt with
  | SUSHIGO =>
      if is_nil items then collect sushigo_item (enumerate lines)
      else Returns items
  | GOMACHI =>
      if is_nil items then collect (gomachi_item lines) (enumerate lines)
      else Returns items
  | _ => Returns items
  end.

(** *** [extract_items] *)

Definition header_keywords : list str :=
  map L ["item"; "description"; "qty"; "price"; "amount"; "jumlah"]%string.

(** The index of the first element that passes [f], as the two boundary
    loops compute it before their [break]. *)
Fixpoint first_index {T : Type} (f : T -> bool) (l : list T) (i : nat) : option nat :=
  match l with
  | [] => None
  | x :: l' => if f x then Some i else first_index f l' (S i)
  end.

Definition header_end_idx (sorted_text : list text_result) : Z :=
  match first_index (fun t => contains_any header_keywords (lower (text t))) sorted_text 0 with
  | Some i => Z.of_nat i + 1
  | None => Z.max 5 (pct15 (length sorted_text))
  end.

Definition footer_start_idx (sorted_text : list text_result) : Z :=
  match first_index (fun t => contains_any footer_keywords (lower (text t))) sorted_text 0 with
  | Some i => Z.of_nat i
  | None => Z.min (Z.of_nat (length sorted_text) - 5) (pct85 (length sorted_text))
  end.

(** One round of the loop over the item section. *)
Definition section_item (sorted_text : list text_result) (i : nat)
    : outcome (option item) :=
  match nth_error sorted_text i with
  | None => Raises IndexError
  | Some t =>
      let line := text t in
      match search price_pattern line with
      | Some price_match =>
          let price := fix_price_format (group 1 price_match) in
          let item_name := strip (slice_to (find (group 0 price_match) line) line) in
          item_name <-
            (if is_nil item_name && (0 <? i) then
               match nth_error sorted_text (i - 1) with
               | Some prev =>
                   let prev_line := text prev in
                   Returns
                     (if negb (is_some (search price_pattern prev_line))
                         && negb (contains_any
                                    (map L ["item"; "description"; "qty"; "price"]%string)
                                    (lower prev_line))
                      then prev_line else item_name)
               | None => Raises IndexError
               end
             else Returns item_name) ;;
          quantity <- marker_quantity line ;;
          if negb (is_nil item_name) && (2 <=? length item_name) then
            if is_valid_item_name item_name then
              '(name_quantity, cleaned_item_name) <-
                extract_quantity_from_name item_name ;;
              let quantity := if (1 <? name_quantity)%Z then name_quantity else quantity in
              let item_name :=
                if (1 <? name_quantity)%Z then cleaned_item_name else item_name in
              let item_name := sub leading_digits [] item_name in
              let item_name := sub x_marker [] item_name in
              Returns (Some (Item item_name quantity price (categorize_item item_name)))
            else Returns None
          else Returns None
      | None => Returns None
      end
  end.

Definition extract_items (text_results : list text_result) (rt : receipt_type)
    (full_text : str) : outcome (list item) :=
  match rt with
  | CHATIME => extract_items_from_chatime_receipt text_results full_text
  | _ =>
      let sorted_text := sorted_by_y text_results in
      items <-
        collect (section_item sorted_text)
          (range (header_end_idx sorted_text) (footer_start_idx sorted_text)) ;;
      if is_nil items then extract_items_alternative full_text rt
      else Returns items
  end.

(** *** [extract_totals] *)

(** The tail shared by the four patterns: [.*?(?:Rp\.?|Rp)?\s*(amount)]. *)
Definition then_amount : list regex :=
  [lazy_star RAny; rp_prefix; star space; amount 1].

Definition subtotal_pattern : regex :=
  cat (RAlt (lit "subtotal") (cat [lit "sub"; star space; lit "total"]) :: then_amount).

Definition tax_pattern : regex :=
  cat (alts [lit "tax"; lit "pajak"; lit "pb1"] :: then_amount).

Definition service_pattern : regex :=
  cat (RAlt (lit "service") (lit "charge") :: then_amount).

(** [(?:^|\s)total.*?(?:Rp\.?|Rp)?\s*(amount)] *)
Definition total_line_pattern : regex :=
  cat (RAlt RBol space :: lit "total" :: then_amount).

Definition extract_amount (p : regex) (full_text : str) : option Q :=
  match isearch p full_text with
  | Some m => Some (fix_price_format (group 1 m))
  | None => None
  end.

Definition extract_totals (full_text : str) : totals :=
  Totals (extract_amount subtotal_pattern full_text)
         (extract_amount tax_pattern full_text)
         (extract_amount service_pattern full_text)
         (extract_amount total_line_pattern full_text).

(** *** [calculate_total] *)

(** [sum(item['price'] for item in items)] *)
Definition sum_prices (items : list item) : Q :=
  fold_left (fun acc it => (acc + price it)%Q) items 0%Q.

Definition calculate_total (items : list item) (t : totals) : Q :=
  match total t with
  | Some v => v
  | None =>
      let items_total := sum_prices items in
      let items_total :=
        match tax t with
        | Some v => (items_total + v)%Q
        | None => items_total
        end in
      match service_charge t with
      | Some v => (items_total + v)%Q
      | None => items_total
      end
  end.

(** *** [extract_payment_method] *)

Definition payment_methods : list (Payment.method * list str) :=
  [(Payment.CASH, map L ["cash"; "tunai"; "uang tunai"]%string);
   (Payment.CARD, map L ["card"; "kartu"; "edc"]%string);
   (Payment.DEBIT, map L ["debit"]%string);
   (Payment.CREDIT, map L ["credit"; "kredit"; "cc"]%string);
   (Payment.QR_PAYMENT, map L ["qr"; "qris"]%string);
   (Payment.OVO, map L ["ovo"]%string);
   (Payment.GOPAY, map L ["gopay"; "gojek"]%string);
   (Payment.DANA, map L ["dana"]%string);
   (Payment.BCA, map L ["bca"]%string);
   (Payment.MANDIRI, map L ["mandiri"]%string)].

Definition extract_payment_method (full_text : str) : Payment.method :=
  let text_lower := lower full_text in
  match List.find (fun mk => contains_any (snd mk) text_lower) payment_methods with
  | Some mk => fst mk
  | None => Payment.UNKNOWN
  end.

(** *** [extract_date_time] and [process_receipt] *)

Section Pipeline.

(** [standardize_date_format] and [standardize_time_format] try
    [datetime.strptime] on a list of formats and give back the text itself
    when none fits. *)
Variable standardize_date_format : str -> str.
Variable standardize_time_format : str -> str.

Definition extract_date_time (full_text : str) : str * str :=
  (match search date_pattern full_text with
   | Some m => standardize_date_format (group 1 m)
   | None => []
   end,
   match search time_pattern full_text with
   | Some m => standardize_time_format (group 1 m)
   | None => []
   end).

(** [process_receipt], from the OCR engine's answer on.  It handles no
    exception: one raised while the items are extracted leaves it. *)
Definition process_receipt (ocr : list ocr_line) : outcome result :=
  let '(text_results, full_text) := extract_text ocr in
  if is_nil text_results
  then Returns (Failure (L "No text detected in the image"))
  else
    let receipt_type := identify_receipt_type full_text in
    let merchant_name := extract_merchant_name text_results receipt_type in
    let '(date, time) := extract_date_time full_text in
    items <- extract_items text_results receipt_type full_text ;;
    let t := extract_totals full_text in
    let total := calculate_total items t in
    let payment_method := extract_payment_method full_text in
    Returns (Success (Receipt merchant_name receipt_type date time items
                        (subtotal t) (tax t) (service_charge t) total
                        payment_method full_text)).

End Pipeline.

(** ** Decimal rendering of an amount

    [repr(v)] for a float [v] whose shortest decimal form is plain
    positional notation, which is the case of every [0 <= v < 1e16] that is
    zero or at least [1e-4]: the integer digits, a point, and the fractional
    digits without trailing zeros (one zero when the amount is whole). *)

Module PyRepr.

Definition digit_char (d : Z) : ascii := ascii_of_nat (48 + Z.to_nat d).

Fixpoint digits_of_fuel (fuel : nat) (n : Z) : str :=
  match fuel with
  | 0 => [digit_char (n mod 10)]
  | S fuel' =>
      if (n <? 10)%Z then [digit_char n]
      else digits_of_fuel fuel' (n / 10) ++ [digit_char (n mod 10)]
  end.

(** [str(n)] for [0 <= n]. *)
Definition digits_of (n : Z) : str := digits_of_fuel (Z.to_nat (Z.log2 n)) n.

(** Long division of [r / d], one decimal at a time, until it comes out
    even. *)
Fixpoint frac_digits (fuel : nat) (r d : Z) : str :=
  digit_char (10 * r / d)
  :: match fuel with
     | 0 => []
     | S fuel' =>
         if ((10 * r) mod d =? 0)%Z then []
         else frac_digits fuel' ((10 * r) mod d) d
     end.

Definition repr_float (v : Q) : str :=
  let n := Z.abs (Qnum v) in
  let d := Zpos (Qden v) in
  (if (Qnum v <? 0)%Z then L "-" else [])
  ++ digits_of (n / d) ++ L "."
  ++ frac_digits (Z.to_nat (Z.log2 d)) (n mod d) d.

End PyRepr.

Import PyRepr.

(** ** Reference definitions

    The price normaliser and the computed total as the specification words
    them, to be compared with the functions above. *)

Module Spec.

Definition numeric_char (c : ascii) : bool :=
  is_digit c || ascii_eqb c "."%char || ascii_eqb c ","%char.

Definition occurs (c : ascii) (w : str) : bool := existsb (ascii_eqb c) w.

Definition remove_char (c : ascii) (w : str) : str :=
  filter (fun x => negb (ascii_eqb x c)) w.

Definition convert_char (c d : ascii) (w : str) : str :=
  map (fun x => if ascii_eqb x c then d else x) w.

Definition separators (w : str) : str :=
  if occurs "."%char w && occurs ","%char w
  then convert_char ","%char "."%char (remove_char "."%char w)
  else if occurs ","%char w
       then if endswith (L ",00") w || endswith (L ",0") w
            then convert_char ","%char "."%char w
            else remove_char ","%char w
       else w.

Definition price_normalizer (raw : str) : Q :=
  match py_float (separators (filter numeric_char raw)) with
  | None => 0%Q
  | Some v => if Qltb 0 v && Qltb v 1000 then (v * 1000)%Q else v
  end.

Definition opt_amount (o : option Q) : Q :=
  match o with Some v => v | None => 0%Q end.

(** [sum(item.price) + (tax if present) + (serviceCharge if present)] *)
Definition computed_total (items : list item) (tax service : option Q) : Q :=
  (fold_right (fun it acc => price it + acc) 0 items
   + opt_amount tax + opt_amount service)%Q.

(** The literals and aliases [extract_merchant_name] looks for. *)
Definition aliases (rt : receipt_type) : list str :=
  match rt with
  | GOMACHI => map L ["Gomachi"; "GOMACHI"; "Gemachi"]%string
  | CHATIME => map L ["Chatime"; "CHATIME"; "Chatine"]%string
  | SUSHIGO => map L ["SUSHIGO"; "Sushigo"]%string
  | HOKBEN => map L ["HOKBEN"; "HokBen"]%string
  | INDOMARET => map L ["INDOMARET"; "Indomaret"]%string
  | WARUNG_CE => map L ["Warung Ce"; "WARUNG CE"]%string
  | UNKNOWN => []
  end.

Definition names_merchant (rt : receipt_type) (t : text_result) : bool :=
  contains_any (aliases rt) (text t).

(** An amount string: what group 1 of the price pattern captures on some
    line. *)
Definition amount_string (w : str) : Prop :=
  exists line m, search price_pattern line = Some m /\ group 1 m = w.

End Spec.

(** A token at height [y]. *)
Definition token (y : Z) (w : string) : ocr_line :=
  let p := (0%Q, inject_Z y) in OcrLine (Quad p p p p) (L w) 1%Q.

(** What both standardisers answer when no format fits: the text itself. *)
Definition unparsed : str -> str := fun w => w.

(** ** [generate_summary]

    The text rendering of a result, without the optional write to a file. *)

Module Summary.

(** Rounding the magnitude of an amount to the nearest integer, ties to
    even: what the format [.0f] prints after the sign. *)
Definition round_half_even (v : Q) : Z :=
  let n := Z.abs (Qnum v) in
  let d := Zpos (Qden v) in
  let q := (n / d)%Z in
  let r := (n mod d)%Z in
  if (2 * r <? d)%Z then q
  else if (d <? 2 * r)%Z then (q + 1)%Z
  else if Z.even q then q else (q + 1)%Z.

(** A comma after every third character, but not at the end. *)
Fixpoint comma3 (w : str) : str :=
  match w with
  | a :: b :: c :: rest =>
      match rest with
      | [] => w
      | _ => a :: b :: c :: ","%char :: comma3 rest
      end
  | _ => w
  end.

(** The [,] option of a format: digits grouped by three from the right. *)
Definition group_thousands (digits : str) : str := rev (comma3 (rev digits)).

(** [f"{v:,.0f}"] *)
Definition format_money (v : Q) : str :=
  (if (Qnum v <? 0)%Z then L "-" else [])
  ++ group_thousands (digits_of (round_half_even v)).

(** [str(n)], which raises when [n] has more than [max_str_digits]
    digits. *)
Definition str_of_int (n : Z) : outcome str :=
  if (Z.abs n <? 10 ^ Z.of_nat max_str_digits)%Z
  then Returns ((if (n <? 0)%Z then L "-" else []) ++ digits_of (Z.abs n))
  else Raises ValueError.

Definition category_name (c : category) : str :=
  match c with
  | FOOD => L "FOOD" | BEVERAGE => L "BEVERAGE" | SNACK => L "SNACK"
  | GROCERY => L "GROCERY" | HOUSEHOLD => L "HOUSEHOLD"
  | PERSONAL_CARE => L "PERSONAL_CARE" | OTHER => L "OTHER"
  end.

Definition payment_name (m : Payment.method) : str :=
  match m with
  | Payment.CASH => L "CASH" | Payment.CARD => L "CARD"
  | Payment.DEBIT => L "DEBIT" | Payment.CREDIT => L "CREDIT"
  | Payment.QR_PAYMENT => L "QR_PAYMENT" | Payment.OVO => L "OVO"
  | Payment.GOPAY => L "GOPAY" | Payment.DANA => L "DANA"
  | Payment.BCA => L "BCA" | Payment.MANDIRI => L "MANDIRI"
  | Payment.UNKNOWN => L "UNKNOWN"
  end.

(** [- {quantity}x {name} ({category}): Rp{price:,.0f}] *)
Definition item_line (it : item) : outcome str :=
  quantity <- str_of_int (quantity it) ;;
  Returns (L "- " ++ quantity ++ L "x " ++ name it ++ L " ("
           ++ category_name (category_of it) ++ L "): Rp"
           ++ format_money (price it)).

(** [if result[key]:] on an optional amount: [None] and [0.0] are both
    false. *)
Definition amount_line (label : string) (o : option Q) : list str :=
  match o with
  | Some v => if Qeq_bool v 0 then [] else [L label ++ format_money v]
  | None => []
  end.

Definition generate_summary (res : result) : outcome str :=
  match res with
  | Failure error => Returns (L "Error: " ++ error)
  | Success r =>
      item_lines <-
        (if is_nil (r_items r) then Returns [L "- No items detected"]
         else traverse item_line (r_items r)) ;;
      Returns
        (join [newline]
           ([L "=== RECEIPT SUMMARY ==="; L "Merchant: " ++ r_merchant_name r]
            ++ (if negb (is_nil (r_date r)) || negb (is_nil (r_time r))
                then [L "Date/Time: " ++ strip (r_date r ++ L " " ++ r_time r)]
                else [])
            ++ [[]; L "Items:"]
            ++ item_lines
            ++ [[]]
            ++ amount_line "Subtotal: Rp" (r_subtotal r)
            ++ amount_line "Tax: Rp" (r_tax r)
            ++ amount_line "Service Charge: Rp" (r_service_charge r)
            ++ [L "Total: Rp" ++ format_money (r_total r);
                L "Payment Method: " ++ payment_name (r_payment_method r)]))
  end.

End Summary.

Import Summary.

(** ** Sample inputs and auxiliary notions for the statements *)

Definition receipt_without_total_line : list ocr_line :=
  [token 0 "ITEM"; token 10 "NASI 10.000"; token 20 "MIE 25.000";
   token 30 "PAJAK 2.000"; token 40 "SERVICE 1.500"].

Definition tokens_gomachi_resto : list text_result :=
  fst (extract_text [token 0 "GOMACHI RESTO"]).

(** What [merchant_hit] answers on a line that names the merchant. *)
Definition merchant_answer (rt : receipt_type) (txt : str) : str :=
  match rt with
  | GOMACHI => L "Gomachi"
  | CHATIME => L "Chatime"
  | _ => txt
  end.

Definition digit_string (w : str) : Prop :=
  forallb is_digit w = true /\ w <> [].

Definition receipt_zero_quantity : list ocr_line :=
  [token 0 "ITEM"; token 10 "0 x NASI 25.000"; token 20 "TOTAL 25.000"].


Definition items_of (ocr : list ocr_line) : outcome (list item) :=
  let '(text_results, full_text) := extract_text ocr in
  extract_items text_results (identify_receipt_type full_text) full_text.

(** An amount with finitely many decimals: a fraction over a power of ten
    that is not negative. *)
Definition decimal_amount (v : Q) : Prop :=
  (0 <= Qnum v)%Z /\ exists k : nat, Zpos (Qden v) = (10 ^ Z.of_nat k)%Z.

(** Every match of [r] consumes a decimal digit. *)
Fixpoint needs_digit (r : regex) : bool :=
  match r with
  | RSet false [CDigit] => true
  | RSeq r1 r2 => needs_digit r1 || needs_digit r2
  | RAlt r1 r2 => needs_digit r1 && needs_digit r2
  | RRep _ lo _ r' => (0 <? lo) && needs_digit r'
  | RGroup _ r' => needs_digit r'
  | _ => false
  end.

(** No decimal digit occurs in [w]. *)
Definition digit_free (w : str) : Prop := existsb is_digit w = false.

(** Tokens at the same height are the same token. *)
Definition distinct_heights (l : list text_result) : Prop :=
  forall a b, In a l -> In b l -> (top_y a == top_y b)%Q -> a = b.

(** Two tokens in the two possible detection orders. *)
Definition tokens_top_down : list text_result :=
  fst (extract_text [token 0 "SUSHIGO JAKARTA"; token 10 "2 PIRING 30.000"]).

Definition tokens_bottom_up : list text_result :=
  fst (extract_text [token 10 "2 PIRING 30.000"; token 0 "SUSHIGO JAKARTA"]).

(** A token whose text is given character by character. *)
Definition token_of (y : Z) (w : str) : ocr_line :=
  let p := (0%Q, inject_Z y) in OcrLine (Quad p p p p) w 1%Q.

(** A line whose quantity marker has one digit more than [int] accepts:
    4301 times ['1'], then [" x NASI 25.000"]. *)
Definition long_quantity_line : str :=
  repeat "1"%char (S max_str_digits) ++ L " x NASI 25.000".

Definition receipt_long_quantity : list ocr_line :=
  [token 0 "ITEM"; token_of 10 long_quantity_line; token 20 "TOTAL 25.000"].

(** [w] occurs in [s] as a run of consecutive characters. *)
Definition segment (w s : str) : Prop := exists a b, s = a ++ w ++ b.

(** No run of consecutive digits of [s] is longer than [int] accepts. *)
Definition short_digit_runs (s : str) : Prop :=
  forall w, digit_string w -> segment w s -> length w <= max_str_digits.
(** * Properties *)

(** ** String and pattern lemmas *)

Lemma ascii_eqb_sym (a b : ascii) : ascii_eqb a b = ascii_eqb b a.
Proof. apply Ascii.eqb_sym. Qed.

Lemma contains_char (c : ascii) (w : str) :
  contains [c] w = Spec.occurs c w.
Proof.
  induction w as [|x w IH]; simpl.
  - reflexivity.
  - rewrite IH. unfold ascii_eqb. destruct (Ascii.eqb c x); reflexivity.
Qed.

Lemma replace_remove (c : ascii) (w : str) :
  replace c [] w = Spec.remove_char c w.
Proof.
  unfold replace, Spec.remove_char.
  induction w as [|x w IH]; simpl; [reflexivity|].
  rewrite IH. destruct (ascii_eqb x c); reflexivity.
Qed.

Lemma replace_convert (c d : ascii) (w : str) :
  replace c [d] w = Spec.convert_char c d w.
Proof.
  unfold replace, Spec.convert_char.
  induction w as [|x w IH]; simpl; [reflexivity|].
  rewrite IH. destruct (ascii_eqb x c); reflexivity.
Qed.

(** Substituting the empty string for a one-character class filters the
    text. *)
Lemma sub_from_class (neg : bool) (items : list cset) :
  forall fuel pos rest,
    length rest < fuel ->
    sub_from fuel (RSet neg items) [] pos rest
    = filter (fun c => negb (set_match false neg items c)) rest.
Proof.
  induction fuel as [|fuel IH]; intros pos rest Hlen; [lia|].
  destruct rest as [|c t]; [reflexivity|].
  simpl in Hlen. cbn [sub_from match_at exec ms_rest].
  cbn [filter]. destruct (set_match false neg items c); cbn [negb].
  - cbn [advance ms_pos m_text].
    replace (S pos - pos) with 1 by lia.
    cbn [firstn length skipn app]. apply IH. lia.
  - f_equal. apply IH. lia.
Qed.

Lemma strip_non_numeric_filter (w : str) :
  strip_non_numeric w = filter Spec.numeric_char w.
Proof.
  unfold strip_non_numeric, sub.
  rewrite sub_from_class by lia.
  apply filter_ext. intros c.
  unfold set_match, Spec.numeric_char. cbn [existsb cset_in xorb].
  rewrite (ascii_eqb_sym "."%char c), (ascii_eqb_sym ","%char c).
  destruct (is_digit c), (ascii_eqb c "."%char), (ascii_eqb c ","%char);
    reflexivity.
Qed.

Lemma fix_separators_spec (w : str) : fix_separators w = Spec.separators w.
Proof.
  unfold fix_separators, Spec.separators.
  change (L ",") with [","%char]. change (L ".") with ["."%char].
  rewrite !contains_char, !replace_remove, !replace_convert.
  rewrite andb_comm. reflexivity.
Qed.

Lemma occurs_filter (c : ascii) (f : ascii -> bool) (w : str) :
  Spec.occurs c w = false -> Spec.occurs c (filter f w) = false.
Proof.
  unfold Spec.occurs. induction w as [|x w IH]; simpl; [reflexivity|].
  intros H. apply orb_false_iff in H as [Hx Hw].
  destruct (f x); simpl; [rewrite Hx|]; auto.
Qed.

Lemma filter_all (f : ascii -> bool) (w : str) :
  forallb f w = true -> filter f w = w.
Proof.
  induction w as [|x w IH]; simpl; [reflexivity|].
  intros H. apply andb_true_iff in H as [Hx Hw].
  rewrite Hx, IH; auto.
Qed.

Lemma fix_separators_no_comma (w : str) :
  contains (L ",") w = false -> fix_separators w = w.
Proof.
  intros H. unfold fix_separators. rewrite H. reflexivity.
Qed.

(** ** The empty token stream *)

(** C1. With no text from the OCR engine, [process_receipt] returns the
    dictionary whose only keys are [success], which is false, and [error],
    which is the fixed message; no extraction stage contributes a field. *)
Theorem process_receipt_no_text :
  forall sd st : str -> str,
    exists res,
      process_receipt sd st [] = Returns res
      /\ res = Failure (L "No text detected in the image")
      /\ success res = false
      /\ keys res = ["success"; "error"]%string.
Proof.
  intros sd st. eexists. repeat split.
Qed.

(** ** The price normaliser *)

(** C4. [fix_price_format] is the normaliser the specification describes:
    with both separators present the points are removed and the commas
    become points; a lone comma becomes a point exactly when the text ends
    in [,00] or [,0] and is removed otherwise; a parsed value strictly
    between 0 and 1000 is multiplied by 1000.  It sends ["1.000,50"] to
    1000.5, ["1,000"] to 1000 and ["500"] to 500000. *)
Theorem fix_price_format_normalizer :
  (forall raw : str, fix_price_format raw = Spec.price_normalizer raw)
  /\ (fix_price_format (L "1.000,50") == 1000.5)%Q
  /\ (fix_price_format (L "1,000") == 1000)%Q
  /\ (fix_price_format (L "500") == 500000)%Q.
Proof.
  split.
  - intros raw. unfold fix_price_format, Spec.price_normalizer.
    rewrite fix_separators_spec, strip_non_numeric_filter. reflexivity.
  - repeat split; vm_compute; reflexivity.
Qed.

(** C10. An amount with a point and no comma goes to the float parser as it
    is: no separator is rewritten.  So ["25.000"] parses as 25 and becomes
    25000 by the below-1000 correction, while ["1.000.000"] does not parse
    and the normaliser answers 0. *)
Theorem fix_price_format_point_only :
  (forall w : str,
      contains (L ".") w = true ->
      contains (L ",") w = false ->
      fix_separators (strip_non_numeric w) = strip_non_numeric w
      /\ (forallb Spec.numeric_char w = true ->
          fix_separators (strip_non_numeric w) = w))
  /\ (exists v, py_float (L "25.000") = Some v /\ (v == 25)%Q)
  /\ (fix_price_format (L "25.000") == 25000)%Q
  /\ py_float (fix_separators (strip_non_numeric (L "1.000.000"))) = None
  /\ (fix_price_format (L "1.000.000") == 0)%Q.
Proof.
  split; [|split; [|split; [|split]]].
  - intros w _ Hcomma.
    assert (Hs : fix_separators (strip_non_numeric w) = strip_non_numeric w).
    { apply fix_separators_no_comma.
      change (L ",") with [","%char] in *.
      rewrite contains_char in *. rewrite strip_non_numeric_filter.
      now apply occurs_filter. }
    split; [exact Hs|].
    intros Hall. rewrite Hs, strip_non_numeric_filter. now apply filter_all.
  - eexists. split; [vm_compute; reflexivity|]. vm_compute. reflexivity.
  - vm_compute. reflexivity.
  - vm_compute. reflexivity.
  - vm_compute. reflexivity.
Qed.

Lemma fix_price_format_point_only_witness :
  fix_separators (strip_non_numeric (L "25.000")) = strip_non_numeric (L "25.000")
  /\ fix_separators (strip_non_numeric (L "25.000")) = L "25.000".
Proof.
  destruct fix_price_format_point_only as [H _].
  destruct (H (L "25.000")) as [H1 H2]; [reflexivity | reflexivity |].
  split; [exact H1 | apply H2; reflexivity].
Defined.

(** ** Scenarios *)

(** C3. On the three tokens ["GOMACHI RESTO"], ["2 GYOZA 25.000"],
    ["TOTAL 25.000"] the pipeline answers type GOMACHI, total 25000 and one
    item of quantity 2, price 25000 and category FOOD; the item comes from
    the per-merchant scan of the fallback strategy, which stores the line
    after its leading quantity, so its name is ["GYOZA 25.000"]. *)
Theorem gomachi_scenario :
  forall sd st : str -> str,
    match process_receipt sd st
            [token 0 "GOMACHI RESTO"; token 10 "2 GYOZA 25.000";
             token 20 "TOTAL 25.000"] with
    | Returns (Success r) =>
        r_receipt_type r = GOMACHI
        /\ map name (r_items r) = [L "GYOZA 25.000"]
        /\ map quantity (r_items r) = [2%Z]
        /\ map category_of (r_items r) = [FOOD]
        /\ Forall (fun it => price it == 25000)%Q (r_items r)
        /\ (r_total r == 25000)%Q
    | _ => False
    end.
Proof.
  intros sd st. vm_compute. repeat split.
  constructor; [reflexivity | constructor].
Qed.

(** C9. In ["Sub Total 50.000"] the word "total" occurs only inside the
    subtotal keyword, yet the blank before it satisfies the [\s] alternative
    of the total pattern: the total is read from the subtotal line.  When
    the keyword is written in one word the total stays absent. *)
Theorem total_from_sub_total_line :
  (exists v, total (extract_totals (L "Sub Total 50.000")) = Some v
             /\ (v == 50000)%Q)
  /\ (exists v, subtotal (extract_totals (L "Sub Total 50.000")) = Some v
                /\ (v == 50000)%Q)
  /\ total (extract_totals (L "Subtotal 50.000")) = None.
Proof.
  split; [|split].
  - eexists. split; [vm_compute; reflexivity|]. vm_compute. reflexivity.
  - eexists. split; [vm_compute; reflexivity|]. vm_compute. reflexivity.
  - vm_compute. reflexivity.
Qed.

(** ** Totals *)

Lemma fold_left_prices (items : list item) :
  forall acc : Q,
    (fold_left (fun a it => a + price it) items acc
     == acc + fold_right (fun it a => price it + a) 0 items)%Q.
Proof.
  induction items as [|it items IH]; intros acc; simpl.
  - ring.
  - rewrite IH. ring.
Qed.

Lemma calculate_total_computed (items : list item) (t : totals) :
  total t = None ->
  (calculate_total items t
   == Spec.computed_total items (tax t) (service_charge t))%Q.
Proof.
  intros H. unfold calculate_total, Spec.computed_total, sum_prices.
  rewrite H.
  destruct (tax t), (service_charge t); simpl;
    rewrite fold_left_prices; ring.
Qed.

Lemma process_receipt_success (sd st : str -> str) (ocr : list ocr_line) (r : receipt) :
  process_receipt sd st ocr = Returns (Success r) ->
  let full_text := snd (extract_text ocr) in
  let t := extract_totals full_text in
  r_raw_text r = full_text
  /\ extract_items (fst (extract_text ocr))
       (identify_receipt_type full_text) full_text = Returns (r_items r)
  /\ r_subtotal r = subtotal t
  /\ r_tax r = tax t
  /\ r_service_charge r = service_charge t
  /\ r_total r = calculate_total (r_items r) t.
Proof.
  unfold process_receipt.
  destruct (extract_text ocr) as [text_results full_text] eqn:E.
  destruct (is_nil text_results); [discriminate|].
  destruct (extract_date_time sd st full_text) as [d tm].
  cbn [snd fst].
  destruct (extract_items text_results (identify_receipt_type full_text)
              full_text) as [items|e]; [|discriminate].
  intros H. injection H as <-. cbn. repeat split.
Qed.

(** C6. When the text yields no total line, the result's total is the sum
    of the item prices plus the tax and the service charge that were
    extracted; subtotal, tax and service charge are absent, not zero,
    whenever their patterns find nothing.  Items priced 10000 and 25000
    with tax 2000 and service 1500 give 38500. *)
Theorem total_computed_without_total_line :
  forall (sd st : str -> str) (ocr : list ocr_line) (r : receipt),
    process_receipt sd st ocr = Returns (Success r) ->
    total (extract_totals (r_raw_text r)) = None ->
    (r_total r
     == Spec.computed_total (r_items r) (r_tax r) (r_service_charge r))%Q
    /\ (isearch subtotal_pattern (r_raw_text r) = None -> r_subtotal r = None)
    /\ (isearch tax_pattern (r_raw_text r) = None -> r_tax r = None)
    /\ (isearch service_pattern (r_raw_text r) = None -> r_service_charge r = None)
    /\ (calculate_total
          [Item (L "a") 1 10000 FOOD; Item (L "b") 1 25000 FOOD]
          (Totals None (Some 2000%Q) (Some 1500%Q) None) == 38500)%Q.
Proof.
  intros sd st ocr r Hr Ht.
  destruct (process_receipt_success _ _ _ _ Hr) as (Hraw & _ & Hsub & Htax & Hsvc & Htot).
  rewrite Hraw in *.
  split; [|split; [|split; [|split]]].
  - rewrite Htot, Htax, Hsvc. now apply calculate_total_computed.
  - intros H. rewrite Hsub. unfold extract_totals. cbn [subtotal].
    unfold extract_amount. now rewrite H.
  - intros H. rewrite Htax. unfold extract_totals. cbn [tax].
    unfold extract_amount. now rewrite H.
  - intros H. rewrite Hsvc. unfold extract_totals. cbn [service_charge].
    unfold extract_amount. now rewrite H.
  - vm_compute. reflexivity.
Qed.

Lemma total_computed_without_total_line_witness :
  match process_receipt unparsed unparsed receipt_without_total_line with
  | Returns (Success r) =>
      (r_total r
       == Spec.computed_total (r_items r) (r_tax r) (r_service_charge r))%Q
      /\ (r_total r == 38500)%Q
  | _ => False
  end.
Proof.
  destruct (process_receipt unparsed unparsed receipt_without_total_line)
    as [[e|r]|e] eqn:E; try (vm_compute in E; discriminate).
  assert (Ht : total (extract_totals (r_raw_text r)) = None).
  { vm_compute in E. injection E as <-. vm_compute. reflexivity. }
  split.
  - exact (proj1 (total_computed_without_total_line unparsed unparsed
                    receipt_without_total_line r E Ht)).
  - vm_compute in E. injection E as <-. vm_compute. reflexivity.
Defined.

(** ** The merchant name *)

Lemma nth_error_skipn_cons {T : Type} (l : list T) :
  forall i t, nth_error l i = Some t -> skipn i l = t :: skipn (S i) l.
Proof.
  induction l as [|x l IH]; intros [|i] t H; simpl in *; try discriminate.
  - now injection H as ->.
  - now apply IH.
Qed.

Lemma nth_error_skipn_nil {T : Type} (l : list T) :
  forall i, nth_error l i = None -> skipn i l = [].
Proof.
  induction l as [|x l IH]; intros [|i] H; simpl in *;
    try reflexivity; try discriminate.
  now apply IH.
Qed.

Lemma firstn_min_length {T : Type} (n : nat) (l : list T) :
  firstn (Nat.min n (length l)) l = firstn n l.
Proof.
  destruct (Nat.le_ge_cases n (length l)) as [H|H].
  - now rewrite Nat.min_l.
  - rewrite Nat.min_r by exact H.
    now rewrite firstn_all, firstn_all2.
Qed.

Lemma merchant_hit_aliases (rt : receipt_type) (txt : str) :
  merchant_hit rt txt
  = if contains_any (Spec.aliases rt) txt
    then Some (merchant_answer rt txt) else None.
Proof.
  destruct rt; unfold merchant_hit, contains_any, Spec.aliases, has;
    cbn [map existsb merchant_answer]; rewrite ?orb_false_r, ?orb_assoc;
    reflexivity.
Qed.

Lemma merchant_loop_find (rt : receipt_type) (l : list text_result) :
  forall n a,
    merchant_loop rt l (seq a n)
    = match List.find (Spec.names_merchant rt) (firstn n (skipn a l)) with
      | Some t => Some (merchant_answer rt (text t))
      | None => None
      end.
Proof.
  induction n as [|n IH]; intros a; [reflexivity|].
  cbn [seq merchant_loop].
  destruct (nth_error l a) as [t|] eqn:E.
  - rewrite (nth_error_skipn_cons _ _ _ E). cbn [firstn List.find].
    unfold Spec.names_merchant at 1. rewrite merchant_hit_aliases.
    destruct (contains_any (Spec.aliases rt) (text t)); [reflexivity|].
    apply IH.
  - rewrite IH, (nth_error_skipn_nil _ _ E).
    assert (Hs : skipn (S a) l = []).
    { apply nth_error_skipn_nil. apply nth_error_None.
      apply nth_error_None in E. lia. }
    rewrite Hs. now destruct n.
Qed.

(** C8, as the code has it.  Among the first five lines from the top, the
    first one that contains a literal or alias of the classified type
    decides: for SUSHIGO, HOKBEN, INDOMARET and WARUNG_CE the answer is that
    line's text, for GOMACHI and CHATIME it is the fixed name ["Gomachi"] or
    ["Chatime"].  With type UNKNOWN, or no such line among the five, the
    answer is the text of the top line, and ["Unknown Merchant"] when there
    is no line. *)
Theorem extract_merchant_name_cases :
  forall (text_results : list text_result) (rt : receipt_type),
    extract_merchant_name text_results rt
    = match List.find (Spec.names_merchant rt)
              (firstn 5 (sorted_by_y text_results)) with
      | Some t =>
          match rt with
          | GOMACHI => L "Gomachi"
          | CHATIME => L "Chatime"
          | _ => text t
          end
      | None =>
          match sorted_by_y text_results with
          | t :: _ => text t
          | [] => L "Unknown Merchant"
          end
      end.
Proof.
  intros text_results rt. unfold extract_merchant_name.
  rewrite merchant_loop_find. cbn [skipn].
  rewrite firstn_min_length.
  destruct (List.find _ _); reflexivity.
Qed.

(** C8 as stated fails: the line ["GOMACHI RESTO"] contains the literal of
    type GOMACHI, and the answer is ["Gomachi"], not the line's text. *)
Lemma extract_merchant_name_not_line_text :
  exists t,
    In t (firstn 5 (sorted_by_y tokens_gomachi_resto))
    /\ Spec.names_merchant GOMACHI t = true
    /\ extract_merchant_name tokens_gomachi_resto GOMACHI <> text t.
Proof.
  eexists. split; [left; reflexivity|]. split; [reflexivity|].
  vm_compute. discriminate.
Qed.

(** ** Amounts are never negative *)

Lemma is_digit_val (c : ascii) :
  is_digit c = true -> (0 <= digit_val c < 10)%Z.
Proof.
  unfold is_digit, digit_val. intros H.
  apply andb_true_iff in H as [H1 H2].
  apply Nat.leb_le in H1. apply Nat.leb_le in H2. lia.
Qed.

Lemma fold_digits_nonneg (w : str) :
  forallb is_digit w = true ->
  forall acc : Z,
    (0 <= acc)%Z ->
    (0 <= fold_left (fun a c => a * 10 + digit_val c) w acc)%Z.
Proof.
  induction w as [|c w IH]; intros Hall acc Hacc; simpl; [exact Hacc|].
  simpl in Hall. apply andb_true_iff in Hall as [Hc Hw].
  apply IH; [exact Hw|]. pose proof (is_digit_val _ Hc). lia.
Qed.

Lemma digits_value_nonneg (w : str) :
  forallb is_digit w = true -> (0 <= digits_value w)%Z.
Proof.
  intros H. unfold digits_value. apply fold_digits_nonneg; [exact H | lia].
Qed.

Lemma takewhile_all (f : ascii -> bool) (w : str) :
  forallb f (takewhile f w) = true.
Proof.
  induction w as [|c w IH]; simpl; [reflexivity|].
  destruct (f c) eqn:E; simpl; [now rewrite E|reflexivity].
Qed.

Lemma py_float_nonneg (w : str) (v : Q) :
  py_float w = Some v -> (0 <= v)%Q.
Proof.
  unfold py_float.
  pose proof (takewhile_all is_digit w) as Hip.
  destruct (dropwhile is_digit w) as [|c fp].
  - destruct (is_nil _); [discriminate|].
    intros H. injection H as <-.
    unfold Qle. simpl. pose proof (digits_value_nonneg _ Hip). lia.
  - destruct (ascii_eqb c "."%char); [|discriminate].
    destruct (forallb is_digit fp) eqn:Hfp; [|discriminate].
    destruct (negb _); [|discriminate].
    intros H. injection H as <-.
    unfold Qle. simpl.
    assert (0 <= digits_value (takewhile is_digit w ++ fp))%Z.
    { apply digits_value_nonneg. rewrite forallb_app, Hip, Hfp. reflexivity. }
    lia.
Qed.

Lemma fix_price_format_nonneg (price_str : str) :
  (0 <= fix_price_format price_str)%Q.
Proof.
  unfold fix_price_format.
  destruct (py_float _) as [v|] eqn:E; [|apply Qle_refl].
  pose proof (py_float_nonneg _ _ E) as Hv.
  destruct (Qltb 0 v && Qltb v 1000); [|exact Hv].
  apply Qmult_le_0_compat; [exact Hv|]. unfold Qle. simpl. lia.
Qed.

Lemma bind_returns {A B : Type} (c : outcome A) (k : A -> outcome B) (b : B) :
  bind c k = Returns b -> exists a, c = Returns a /\ k a = Returns b.
Proof.
  destruct c as [a|e]; cbn [bind]; [|discriminate].
  intros H. now exists a.
Qed.

Lemma Returns_inj {A : Type} (a b : A) : Returns a = Returns b -> a = b.
Proof. intros H. now injection H. Qed.

Lemma collect_cons {T : Type} (body : T -> outcome (option item)) (x : T)
    (rounds : list T) (items : list item) :
  collect body (x :: rounds) = Returns items ->
  exists o rest,
    body x = Returns o /\ collect body rounds = Returns rest
    /\ items = match o with Some it => it :: rest | None => rest end.
Proof.
  cbn [collect]. intros H.
  apply bind_returns in H as (o & Ho & H).
  apply bind_returns in H as (rest & Hrest & H).
  injection H as <-. now exists o, rest.
Qed.

Lemma collect_In {T : Type} (body : T -> outcome (option item)) (rounds : list T)
    (items : list item) (it : item) :
  collect body rounds = Returns items ->
  In it items ->
  exists x, In x rounds /\ body x = Returns (Some it).
Proof.
  revert items. induction rounds as [|x rounds IH]; intros items H Hin.
  - injection H as <-. contradiction.
  - apply collect_cons in H as (o & rest & Ho & Hrest & ->).
    destruct o as [it'|].
    + destruct Hin as [<-|Hin].
      * exists x. split; [now left | exact Ho].
      * destruct (IH _ Hrest Hin) as (y & Hy & Hb).
        exists y. split; [now right | exact Hb].
    + destruct (IH _ Hrest Hin) as (y & Hy & Hb).
      exists y. split; [now right | exact Hb].
Qed.

(** A loop whose body is pure. *)
Lemma collect_pure_In {T : Type} (body : T -> option item) (rounds : list T)
    (items : list item) (it : item) :
  collect (fun x => Returns (body x)) rounds = Returns items ->
  In it items ->
  exists x, In x rounds /\ body x = Some it.
Proof.
  intros H Hin. destruct (collect_In _ _ _ _ H Hin) as (x & Hx & Hb).
  exists x. split; [exact Hx|]. now injection Hb.
Qed.

(** Case analysis on the tests of a loop body that ended in an append. *)
Ltac body_cases H :=
  unfold bind in H;
  repeat match type of H with
         | context [match ?x with _ => _ end] => destruct x eqn:?
         | context [if ?x then _ else _] => destruct x eqn:?
         end;
  try discriminate H;
  try (injection H as <-; cbn [price quantity]).

Lemma Qltb_lt (a b : Q) : Qltb a b = true -> (a < b)%Q.
Proof.
  unfold Qltb. intros H. apply negb_true_iff in H.
  apply Qnot_le_lt. intros Hle. apply Qle_bool_iff in Hle. congruence.
Qed.

Lemma chatime_pattern_item_price (lines : list str) (il : nat * str) (it : item) :
  chatime_pattern_item lines il = Returns (Some it) -> (0 <= price it)%Q.
Proof.
  unfold chatime_pattern_item. intros H. body_cases H;
    apply fix_price_format_nonneg.
Qed.

Lemma chatime_x_item_price (lines : list str) (il : nat * str) (it : item) :
  chatime_x_item lines il = Some it -> (0 <= price it)%Q.
Proof.
  unfold chatime_x_item. intros H. destruct il as [i line].
  destruct (has "x" (lower line) && _); [|discriminate].
  destruct (Qltb 0 _) eqn:Hp; [|discriminate].
  apply Qltb_lt, Qlt_le_weak in Hp.
  body_cases H; exact Hp.
Qed.

Lemma alternative_item_price (lines : list str) (il : nat * str) (it : item) :
  alternative_item lines il = Returns (Some it) -> (0 <= price it)%Q.
Proof.
  unfold alternative_item. intros H. body_cases H;
    apply fix_price_format_nonneg.
Qed.

Lemma sushigo_item_price (il : nat * str) (it : item) :
  sushigo_item il = Returns (Some it) -> (0 <= price it)%Q.
Proof.
  unfold sushigo_item. intros H. body_cases H;
    apply fix_price_format_nonneg.
Qed.

Lemma gomachi_item_price (lines : list str) (il : nat * str) (it : item) :
  gomachi_item lines il = Returns (Some it) -> (0 <= price it)%Q.
Proof.
  unfold gomachi_item. intros H. destruct il as [i line].
  destruct (has "BUTADON" line || _ || _); [|discriminate].
  destruct (Qltb 0 _ && _) eqn:Hp; [|discriminate].
  apply andb_true_iff in Hp as [Hp _].
  apply Qltb_lt, Qlt_le_weak in Hp.
  body_cases H; exact Hp.
Qed.

Lemma section_item_price (sorted_text : list text_result) (i : nat) (it : item) :
  section_item sorted_text i = Returns (Some it) -> (0 <= price it)%Q.
Proof.
  unfold section_item. intros H. body_cases H;
    apply fix_price_format_nonneg.
Qed.

(** A property of every item follows from the same property of what each
    loop body appends. *)
Section EveryItem.

Variable P : item -> Prop.

Hypothesis chatime_pattern_item_P :
  forall lines il it, chatime_pattern_item lines il = Returns (Some it) -> P it.
Hypothesis chatime_x_item_P :
  forall lines il it, chatime_x_item lines il = Some it -> P it.
Hypothesis alternative_item_P :
  forall lines il it, alternative_item lines il = Returns (Some it) -> P it.
Hypothesis sushigo_item_P :
  forall il it, sushigo_item il = Returns (Some it) -> P it.
Hypothesis gomachi_item_P :
  forall lines il it, gomachi_item lines il = Returns (Some it) -> P it.
Hypothesis section_item_P :
  forall sorted_text i it, section_item sorted_text i = Returns (Some it) -> P it.

Lemma extract_items_from_chatime_receipt_every (text_results : list text_result)
    (full_text : str) (items : list item) (it : item) :
  extract_items_from_chatime_receipt text_results full_text = Returns items ->
  In it items -> P it.
Proof.
  unfold extract_items_from_chatime_receipt. cbv zeta. intros H Hin.
  apply bind_returns in H as (first & Hfirst & H).
  destruct (is_nil first).
  - destruct (collect_pure_In _ _ _ _ H Hin) as (x & _ & Hx).
    exact (chatime_x_item_P _ _ _ Hx).
  - injection H as <-.
    destruct (collect_In _ _ _ _ Hfirst Hin) as (x & _ & Hx).
    exact (chatime_pattern_item_P _ _ _ Hx).
Qed.

Lemma extract_items_alternative_every (full_text : str) (rt : receipt_type)
    (items : list item) (it : item) :
  extract_items_alternative full_text rt = Returns items ->
  In it items -> P it.
Proof.
  unfold extract_items_alternative. cbv zeta. intros H Hin.
  apply bind_returns in H as (first & Hfirst & H).
  assert (Halt : In it first -> P it).
  { intros Hf. destruct (collect_In _ _ _ _ Hfirst Hf) as (x & _ & Hx).
    exact (alternative_item_P _ _ _ Hx). }
  destruct rt; try (injection H as <-; now apply Halt);
    (destruct (is_nil first); [|injection H as <-; now apply Halt]);
    destruct (collect_In _ _ _ _ H Hin) as (x & _ & Hx).
  - exact (gomachi_item_P _ _ _ Hx).
  - exact (sushigo_item_P _ _ Hx).
Qed.

(** The strategies of every receipt type but CHATIME. *)
Lemma extract_items_general_every (text_results : list text_result)
    (rt : receipt_type) (full_text : str) (items : list item) (it : item) :
  rt <> CHATIME ->
  extract_items text_results rt full_text = Returns items ->
  In it items -> P it.
Proof.
  intros Hrt.
  assert (Hgen : forall rt',
             (let sorted_text := sorted_by_y text_results in
              items <-
                collect (section_item sorted_text)
                  (range (header_end_idx sorted_text)
                     (footer_start_idx sorted_text)) ;;
              if is_nil items then extract_items_alternative full_text rt'
              else Returns items) = Returns items ->
             In it items -> P it).
  { intros rt'. cbv zeta. intros H Hin.
    apply bind_returns in H as (first & Hfirst & H).
    destruct (is_nil first).
    - exact (extract_items_alternative_every _ _ _ _ H Hin).
    - injection H as <-.
      destruct (collect_In _ _ _ _ Hfirst Hin) as (x & _ & Hx).
      exact (section_item_P _ _ _ Hx). }
  unfold extract_items. destruct rt; try apply Hgen. contradiction.
Qed.

Lemma extract_items_every (text_results : list text_result) (rt : receipt_type)
    (full_text : str) (items : list item) (it : item) :
  extract_items text_results rt full_text = Returns items ->
  In it items -> P it.
Proof.
  destruct rt;
    try (apply extract_items_general_every; discriminate).
  apply extract_items_from_chatime_receipt_every.
Qed.

End EveryItem.

Lemma extract_items_price (text_results : list text_result) (rt : receipt_type)
    (full_text : str) (items : list item) (it : item) :
  extract_items text_results rt full_text = Returns items ->
  In it items -> (0 <= price it)%Q.
Proof.
  apply (extract_items_every (fun it => (0 <= price it)%Q)).
  - exact chatime_pattern_item_price.
  - exact chatime_x_item_price.
  - exact alternative_item_price.
  - exact sushigo_item_price.
  - exact gomachi_item_price.
  - exact section_item_price.
Qed.

Lemma fold_left_prices_nonneg (items : list item) :
  (forall it, In it items -> (0 <= price it)%Q) ->
  forall acc : Q,
    (0 <= acc)%Q ->
    (0 <= fold_left (fun a it => a + price it) items acc)%Q.
Proof.
  induction items as [|it items IH]; intros Hall acc Hacc; simpl; [exact Hacc|].
  apply IH.
  - intros it' Hin. apply Hall. now right.
  - replace 0%Q with (0 + 0)%Q by reflexivity.
    apply Qplus_le_compat; [exact Hacc|]. apply Hall. now left.
Qed.

Lemma extract_amount_nonneg (p : regex) (full_text : str) (v : Q) :
  extract_amount p full_text = Some v -> (0 <= v)%Q.
Proof.
  unfold extract_amount. destruct (isearch p full_text); [|discriminate].
  intros H. injection H as <-. apply fix_price_format_nonneg.
Qed.

Lemma Qplus_nonneg (a b : Q) : (0 <= a)%Q -> (0 <= b)%Q -> (0 <= a + b)%Q.
Proof.
  intros Ha Hb. replace 0%Q with (0 + 0)%Q by reflexivity.
  now apply Qplus_le_compat.
Qed.

Lemma calculate_total_nonneg (items : list item) (full_text : str) :
  (forall it, In it items -> (0 <= price it)%Q) ->
  (0 <= calculate_total items (extract_totals full_text))%Q.
Proof.
  intros Hall. unfold calculate_total, extract_totals.
  cbn [total tax service_charge].
  destruct (extract_amount total_line_pattern full_text) as [v|] eqn:Et.
  - exact (extract_amount_nonneg _ _ _ Et).
  - assert (Hs : (0 <= sum_prices items)%Q).
    { unfold sum_prices. apply fold_left_prices_nonneg; [exact Hall|].
      apply Qle_refl. }
    destruct (extract_amount tax_pattern full_text) as [x|] eqn:Ex;
      destruct (extract_amount service_pattern full_text) as [c|] eqn:Ec;
      repeat apply Qplus_nonneg;
      eauto using extract_amount_nonneg.
Qed.

(** ** A non-empty token stream *)

(** What [process_receipt] returns on a non-empty stream is the success
    dictionary, and the total in it is not negative. *)
Lemma process_receipt_nonempty (sd st : str -> str) (ocr : list ocr_line)
    (res : result) :
  ocr <> [] ->
  process_receipt sd st ocr = Returns res ->
  exists r, res = Success r /\ (0 <= r_total r)%Q.
Proof.
  intros Hne. destruct ocr as [|l ocr]; [contradiction|].
  unfold process_receipt.
  destruct (extract_text (l :: ocr)) as [text_results full_text] eqn:E.
  assert (Hnil : is_nil text_results = false).
  { unfold extract_text in E. injection E as <- _. reflexivity. }
  rewrite Hnil.
  destruct (extract_date_time sd st full_text) as [d tm].
  intros H. apply bind_returns in H as (items & Hitems & H).
  injection H as <-. eexists. split; [reflexivity|]. cbn [r_total].
  apply calculate_total_nonneg. intros it.
  exact (extract_items_price _ _ _ _ _ Hitems).
Qed.

(** C2. The claim fails on a non-empty stream.  On the three tokens
    ["ITEM"], a line made of 4301 digits followed by [" x NASI 25.000"], and
    ["TOTAL 25.000"], the digits are the quantity marker of the one line of
    the item section, and the [int] applied to them, outside any [try],
    raises [ValueError]: [process_receipt] returns no dictionary, so there
    is neither a [success] flag nor a total. *)
Theorem process_receipt_long_quantity :
  forall sd st : str -> str,
    length receipt_long_quantity = 3
    /\ process_receipt sd st receipt_long_quantity = Raises ValueError.
Proof.
  intros sd st. split; [reflexivity|].
  vm_compute. reflexivity.
Qed.

(** ** Soundness of the matcher *)

Lemma rep_loop_sound (A : Type) (ic : bool) (r : regex)
    (body : mstate -> (mstate -> option A) -> option A)
    (greedy : bool) (lo : nat) (hi : option nat) (k : mstate -> option A) :
  (forall st k' a, body st k' = Some a ->
                   exists st', run ic r st st' /\ k' st' = Some a) ->
  forall fuel count st a,
    rep_loop body greedy lo hi k fuel count st = Some a ->
    exists st', run ic (RRep greedy (lo - count) hi r) st st' /\ k st' = Some a.
Proof.
  intros Hbody.
  assert (Hstop : forall count st a,
             (if lo <=? count then k st else None) = Some a ->
             exists st', run ic (RRep greedy (lo - count) hi r) st st'
                         /\ k st' = Some a).
  { intros count st a H. destruct (lo <=? count) eqn:E; [|discriminate].
    apply Nat.leb_le in E. exists st. split; [|exact H].
    replace (lo - count) with 0 by lia. constructor. }
  induction fuel as [|fuel IH]; intros count st a H; cbn [rep_loop] in H.
  - now apply Hstop.
  - assert (Hmore :
              (if below hi count
               then body st (fun st' =>
                      if ms_pos st <? ms_pos st'
                      then rep_loop body greedy lo hi k fuel (S count) st'
                      else None)
               else None) = Some a ->
              exists st', run ic (RRep greedy (lo - count) hi r) st st'
                          /\ k st' = Some a).
    { destruct (below hi count); [|discriminate].
      intros Hb. apply Hbody in Hb as (st1 & Hrun & Hk).
      destruct (ms_pos st <? ms_pos st1); [|discriminate].
      apply IH in Hk as (st2 & Hrun2 & Hk2).
      exists st2. split; [|exact Hk2].
      eapply run_rep_more; [exact Hrun|].
      replace (pred (lo - count)) with (lo - S count) by lia. exact Hrun2. }
    destruct greedy.
    + destruct (if below hi count then _ else None) eqn:E.
      * injection H as ->. now apply Hmore.
      * now apply Hstop.
    + destruct (if lo <=? count then k st else None) eqn:E.
      * injection H as ->. now apply Hstop.
      * now apply Hmore.
Qed.

Lemma exec_sound (A : Type) (ic : bool) (r : regex) :
  forall (st : mstate) (k : mstate -> option A) (a : A),
    exec ic r st k = Some a ->
    exists st', run ic r st st' /\ k st' = Some a.
Proof.
  induction r as [| c | neg items | | | | r1 IH1 r2 IH2 | r1 IH1 r2 IH2
                 | greedy lo hi r IH | n r IH];
    intros st k a H; cbn [exec] in H.
  - exists st. split; [constructor | exact H].
  - destruct (ms_rest st) as [|x t] eqn:E; [discriminate|].
    destruct (lit_match ic c x) eqn:Hm; [|discriminate].
    exists (advance st t). split; [now apply run_lit with (x := x) | exact H].
  - destruct (ms_rest st) as [|x t] eqn:E; [discriminate|].
    destruct (set_match ic neg items x) eqn:Hm; [|discriminate].
    exists (advance st t). split; [now apply run_set with (x := x) | exact H].
  - destruct (ms_rest st) as [|x t] eqn:E; [discriminate|].
    destruct (ascii_eqb x newline) eqn:Hm; [discriminate|].
    exists (advance st t). split; [now apply run_any with (x := x) | exact H].
  - destruct (Nat.eqb (ms_pos st) 0) eqn:E; [|discriminate].
    apply Nat.eqb_eq in E. exists st. split; [now constructor | exact H].
  - destruct (ms_rest st) as [|x [|y t]] eqn:E; try discriminate.
    + exists st. split; [constructor; now left | exact H].
    + destruct (ascii_eqb x newline) eqn:Hm; [|discriminate].
      apply Ascii.eqb_eq in Hm. subst x.
      exists st. split; [constructor; now right | exact H].
  - apply IH1 in H as (st1 & Hr1 & H). apply IH2 in H as (st2 & Hr2 & H).
    exists st2. split; [now apply run_seq with (st1 := st1) | exact H].
  - destruct (exec ic r1 st k) eqn:E.
    + injection H as ->. apply IH1 in E as (st' & Hr & Hk).
      exists st'. split; [now apply run_alt_l | exact Hk].
    + apply IH2 in H as (st' & Hr & Hk).
      exists st'. split; [now apply run_alt_r | exact Hk].
  - apply (rep_loop_sound A ic r) in H; [|exact IH].
    now rewrite Nat.sub_0_r in H.
  - apply IH in H as (st' & Hr & Hk).
    eexists. split; [apply run_group; exact Hr | exact Hk].
Qed.

Lemma search_from_sound (ic : bool) (r : regex) :
  forall rest pos m,
    search_from ic r pos rest = Some m ->
    exists pos' rest' st',
      run ic r (MState pos' rest' []) st' /\ m_groups m = ms_caps st'.
Proof.
  induction rest as [|c rest IH]; intros pos m H; cbn [search_from] in H;
    destruct (match_at ic r pos _) as [m'|] eqn:E;
    try discriminate;
    try (injection H as ->; unfold match_at in E;
         apply exec_sound in E as (st' & Hr & Hk);
         injection Hk as <-; eauto).
  now apply IH in H.
Qed.

Lemma get_cap_set_cap_same (n : nat) (v : str) (caps : list (nat * str)) :
  get_cap n (set_cap n v caps) = Some v.
Proof.
  induction caps as [|[m w] caps IH]; cbn [set_cap get_cap].
  - now rewrite Nat.eqb_refl.
  - destruct (Nat.eqb m n) eqn:E; cbn [get_cap].
    + now rewrite Nat.eqb_refl.
    + now rewrite E.
Qed.

Lemma get_cap_set_cap_other (m n : nat) (v : str) (caps : list (nat * str)) :
  Nat.eqb m n = false ->
  get_cap n (set_cap m v caps) = get_cap n caps.
Proof.
  intros Hmn. induction caps as [|[j w] caps IH]; cbn [set_cap get_cap].
  - now rewrite Hmn.
  - destruct (Nat.eqb j m) eqn:E; cbn [get_cap].
    + apply Nat.eqb_eq in E. subst j. now rewrite Hmn.
    + now rewrite IH.
Qed.

(** A run leaves alone the groups that do not occur in the pattern. *)
Lemma run_keeps_cap (ic : bool) (n : nat) (r : regex) (st st' : mstate) :
  run ic r st st' ->
  no_group n r = true ->
  get_cap n (ms_caps st') = get_cap n (ms_caps st).
Proof.
  induction 1 as [ | | | | | | r1 r2 st st1 st2 _ IH1 _ IH2
                 | r1 r2 st st' _ IH | r1 r2 st st' _ IH |
                 | greedy lo hi r st st1 st2 _ IH1 _ IH2
                 | m r st st' _ IH ];
    cbn [no_group advance ms_caps]; intros Hn; try reflexivity.
  - apply andb_true_iff in Hn as [H1 H2]. now rewrite IH2, IH1.
  - apply andb_true_iff in Hn as [H1 H2]. auto.
  - apply andb_true_iff in Hn as [H1 H2]. auto.
  - rewrite IH2, IH1; auto.
  - apply andb_true_iff in Hn as [H1 H2]. apply negb_true_iff in H1.
    rewrite get_cap_set_cap_other by exact H1. auto.
Qed.

(** What a run of [\d{lo,}] consumes. *)
Lemma run_digits (greedy : bool) (hi : option nat) (st st' : mstate) :
  forall lo,
    run false (RRep greedy lo hi digit) st st' ->
    exists w,
      ms_rest st = w ++ ms_rest st'
      /\ ms_pos st' = ms_pos st + length w
      /\ forallb is_digit w = true
      /\ lo <= length w.
Proof.
  intros lo H. remember (RRep greedy lo hi digit) as r eqn:Er.
  revert lo Er.
  induction H as [ | | | | | | | | | g hi' r0 st
                 | g lo' hi' r0 st st1 st2 Hbody _ Hrest IH | ];
    intros lo Er; try discriminate Er.
  - injection Er as Eg El Eh Er0. subst. exists []. repeat split; auto.
  - injection Er as Eg El Eh Er0. subst.
    destruct (IH (pred lo) eq_refl) as (w & Hw & Hp & Hd & Hl).
    unfold digit in Hbody. inversion Hbody as [ | | neg items x t st0 Hx Hm | | | | | | | | | ]; subst.
    exists (x :: w). cbn [advance ms_rest ms_pos] in *.
    repeat split.
    + rewrite Hx, Hw. reflexivity.
    + rewrite Hp. cbn [length]. lia.
    + cbn [forallb]. rewrite Hd.
      unfold set_match in Hm. cbn in Hm. rewrite orb_false_r in Hm.
      now rewrite Hm.
    + cbn [length]. lia.
Qed.

(** A pattern that starts with [(\d+)] as group [n] and never sets that
    group again captures a non-empty string of digits. *)
Lemma run_leading_digit_group (n : nat) (r : regex) (st st' : mstate) :
  run false (RSeq (RGroup n (plus digit)) r) st st' ->
  no_group n r = true ->
  exists w, get_cap n (ms_caps st') = Some w /\ digit_string w.
Proof.
  intros H Hn.
  inversion H as [ | | | | | | r1 r2 s0 s1 s2 Hg Hr | | | | | ]; subst.
  rewrite (run_keeps_cap _ _ _ _ _ Hr Hn).
  inversion Hg as [ | | | | | | | | | | | m r' s0 s1' Hd ]; subst.
  cbn [ms_caps]. rewrite get_cap_set_cap_same.
  apply run_digits in Hd as (w & Hw & Hp & Hd & Hl).
  exists w. rewrite Hw, Hp.
  replace (ms_pos st + length w - ms_pos st) with (length w) by lia.
  rewrite firstn_app, Nat.sub_diag, firstn_all. cbn [firstn].
  rewrite app_nil_r. repeat split; auto.
  intros ->. cbn in Hl. lia.
Qed.

Lemma run_after_bol (ic : bool) (r : regex) (st st' : mstate) :
  run ic (RSeq RBol r) st st' -> run ic r st st'.
Proof.
  intros H.
  inversion H as [ | | | | | | r1 r2 s0 s1 s2 Hb Hr | | | | | ]; subst.
  inversion Hb; subst. exact Hr.
Qed.

Lemma group_of_caps (n : nat) (m : rmatch) (w : str) :
  get_cap (S n) (m_groups m) = Some w -> group (S n) m = w.
Proof. unfold group. now intros ->. Qed.

Lemma qty_marker_group (line : str) (m : rmatch) :
  search qty_marker line = Some m -> digit_string (group 1 m).
Proof.
  intros H. apply search_from_sound in H as (pos & rest & st' & Hr & Hg).
  apply run_leading_digit_group in Hr as (w & Hw & Hd); [|reflexivity].
  rewrite <- Hg in Hw. now rewrite (group_of_caps _ _ _ Hw).
Qed.

Lemma chatime_item_pattern_group (line : str) (m : rmatch) :
  search chatime_item_pattern line = Some m -> digit_string (group 1 m).
Proof.
  intros H. apply search_from_sound in H as (pos & rest & st' & Hr & Hg).
  apply run_leading_digit_group in Hr as (w & Hw & Hd); [|reflexivity].
  rewrite <- Hg in Hw. now rewrite (group_of_caps _ _ _ Hw).
Qed.

Lemma quantity_prefix_group (item_name : str) (m : rmatch) :
  rmatch_start quantity_prefix item_name = Some m -> digit_string (group 1 m).
Proof.
  unfold rmatch_start, match_at. intros H.
  apply exec_sound in H as (st' & Hr & Hk). injection Hk as <-.
  apply run_after_bol in Hr.
  apply run_leading_digit_group in Hr as (w & Hw & Hd); [|reflexivity].
  unfold group. cbn [m_groups]. now rewrite Hw.
Qed.

(** ** Quantities *)

Lemma is_digit_not_space (c : ascii) : is_digit c = true -> is_space c = false.
Proof.
  unfold is_digit, is_space. intros H.
  apply andb_true_iff in H as [H1 H2].
  apply Nat.leb_le in H1. apply Nat.leb_le in H2.
  apply orb_false_iff. split; apply andb_false_iff.
  - right. apply Nat.leb_gt. lia.
  - right. apply Nat.leb_gt. lia.
Qed.

Lemma lstrip_digits (w : str) : forallb is_digit w = true -> lstrip w = w.
Proof.
  destruct w as [|c w]; [reflexivity|]. cbn [forallb]. intros H.
  apply andb_true_iff in H as [Hc _].
  unfold lstrip. cbn [dropwhile]. now rewrite (is_digit_not_space _ Hc).
Qed.

Lemma forallb_rev (f : ascii -> bool) (w : str) :
  forallb f w = true -> forallb f (rev w) = true.
Proof.
  intros H. apply forallb_forall. intros x Hx.
  apply in_rev in Hx. rewrite forallb_forall in H. now apply H.
Qed.

Lemma strip_digits (w : str) : forallb is_digit w = true -> strip w = w.
Proof.
  intros H. unfold strip. rewrite lstrip_digits by exact H.
  unfold rstrip. fold (lstrip (rev w)).
  rewrite lstrip_digits by now apply forallb_rev.
  apply rev_involutive.
Qed.

Lemma int_body_digits (w : str) :
  forallb is_digit w = true ->
  forall b, (b = true \/ w <> []) -> int_body b w = true.
Proof.
  induction w as [|c w IH]; intros Hall b Hb; cbn [int_body].
  - destruct Hb as [Hb|Hb]; [exact Hb | contradiction].
  - cbn [forallb] in Hall. apply andb_true_iff in Hall as [Hc Hw].
    rewrite Hc. apply IH; [exact Hw | now left].
Qed.

(** [int] on a non-empty string of digits: the number they write when
    there are at most 4300 of them, [ValueError] when there are more. *)
Lemma py_int_of_digits (w : str) :
  digit_string w ->
  py_int w = if length w <=? max_str_digits then Some (digits_value w)
             else None.
Proof.
  intros [Hall Hne]. unfold py_int. rewrite strip_digits by exact Hall.
  destruct w as [|c w]; [contradiction|].
  pose proof Hall as Hall'. cbn [forallb] in Hall'.
  apply andb_true_iff in Hall' as [Hc _].
  assert (Hm : ascii_eqb c "-"%char = false).
  { destruct (ascii_eqb c "-"%char) eqn:E; [|reflexivity].
    apply Ascii.eqb_eq in E. subst c. discriminate Hc. }
  assert (Hp : ascii_eqb c "+"%char = false).
  { destruct (ascii_eqb c "+"%char) eqn:E; [|reflexivity].
    apply Ascii.eqb_eq in E. subst c. discriminate Hc. }
  rewrite Hm, Hp.
  rewrite int_body_digits; [| exact Hall | right; discriminate].
  rewrite filter_all by exact Hall. cbn [andb].
  destruct (length (c :: w) <=? max_str_digits); [|reflexivity].
  f_equal. lia.
Qed.

Lemma int_call_digits (w : str) :
  digit_string w ->
  int_call w = if length w <=? max_str_digits then Returns (digits_value w)
               else Raises ValueError.
Proof.
  intros H. unfold int_call. rewrite (py_int_of_digits _ H).
  now destruct (length w <=? max_str_digits).
Qed.

(** A property of every quantity read off a match of [\d+], and of the
    default quantity 1, holds of every quantity the loops store, the
    fallback of the CHATIME strategy apart. *)
Section EveryQuantity.

Variable P : Z -> Prop.

Hypothesis P_one : P 1%Z.
Hypothesis P_digits :
  forall w, digit_string w -> length w <= max_str_digits -> P (digits_value w).

Lemma int_call_every (w : str) (q : Z) :
  digit_string w -> int_call w = Returns q -> P q.
Proof.
  intros Hw. rewrite (int_call_digits _ Hw).
  destruct (length w <=? max_str_digits) eqn:E; [|discriminate].
  intros H. injection H as <-. apply P_digits; [exact Hw|].
  now apply Nat.leb_le.
Qed.

Lemma extract_quantity_from_name_every (item_name : str) (q : Z) (rest : str) :
  extract_quantity_from_name item_name = Returns (q, rest) -> P q.
Proof.
  unfold extract_quantity_from_name.
  destruct (rmatch_start quantity_prefix item_name) as [m|] eqn:E.
  - intros H. apply bind_returns in H as (q' & Hq & H).
    injection H as <- _.
    exact (int_call_every _ _ (quantity_prefix_group _ _ E) Hq).
  - intros H. injection H as <- _. exact P_one.
Qed.

Lemma marker_quantity_every (line : str) (q : Z) :
  marker_quantity line = Returns q -> P q.
Proof.
  unfold marker_quantity.
  destruct (search qty_marker line) as [m|] eqn:E.
  - exact (int_call_every _ _ (qty_marker_group _ _ E)).
  - intros H. injection H as <-. exact P_one.
Qed.

Lemma marker_or_prefix_quantity_every (line : str) (q : Z) (rest : str) :
  marker_or_prefix_quantity line = Returns (q, rest) -> P q.
Proof.
  unfold marker_or_prefix_quantity.
  destruct (search qty_marker line) as [m|] eqn:E; intros H.
  - apply bind_returns in H as (q' & Hq & H). injection H as <- _.
    exact (int_call_every _ _ (qty_marker_group _ _ E) Hq).
  - apply bind_returns in H as ([q' cleaned] & Hq & H).
    apply extract_quantity_from_name_every in Hq.
    destruct (1 <? q')%Z; injection H as <- _; assumption.
Qed.

Lemma section_item_quantity (sorted_text : list text_result) (i : nat) (it : item) :
  section_item sorted_text i = Returns (Some it) -> P (quantity it).
Proof.
  unfold section_item. intros H.
  destruct (nth_error sorted_text i) as [t|]; [|discriminate].
  destruct (search price_pattern (text t)) as [pm|]; [|discriminate].
  cbv zeta in H.
  apply bind_returns in H as (item_name & _ & H).
  apply bind_returns in H as (q0 & Hq0 & H).
  apply marker_quantity_every in Hq0.
  destruct (negb _ && _); [|discriminate].
  destruct (is_valid_item_name _); [|discriminate].
  apply bind_returns in H as ([q cleaned] & Hq & H).
  apply extract_quantity_from_name_every in Hq.
  injection H as <-. cbn [quantity].
  destruct (1 <? q)%Z; assumption.
Qed.

Lemma alternative_item_quantity (lines : list str) (il : nat * str) (it : item) :
  alternative_item lines il = Returns (Some it) -> P (quantity it).
Proof.
  unfold alternative_item. intros H. destruct il as [i line].
  destruct (i <? 3); [discriminate|].
  destruct (contains_any footer_keywords (lower line)); [discriminate|].
  destruct (search price_pattern line) as [pm|]; [|discriminate].
  cbv zeta in H.
  apply bind_returns in H as (item_name & _ & H).
  apply bind_returns in H as (q0 & Hq0 & H).
  apply marker_quantity_every in Hq0.
  destruct (is_valid_item_name _); [|discriminate].
  apply bind_returns in H as ([q cleaned] & Hq & H).
  apply extract_quantity_from_name_every in Hq.
  injection H as <-. cbn [quantity].
  destruct (1 <? q)%Z; assumption.
Qed.

Lemma sushigo_item_quantity (il : nat * str) (it : item) :
  sushigo_item il = Returns (Some it) -> P (quantity it).
Proof.
  unfold sushigo_item. intros H. destruct il as [i line].
  destruct (has "PIRING" line || _); [|discriminate].
  destruct (search price_pattern line) as [pm|]; [|discriminate].
  apply bind_returns in H as ([q line'] & Hq & H).
  apply marker_or_prefix_quantity_every in Hq.
  destruct (is_valid_item_name _); [|discriminate].
  injection H as <-. exact Hq.
Qed.

Lemma gomachi_item_quantity (lines : list str) (il : nat * str) (it : item) :
  gomachi_item lines il = Returns (Some it) -> P (quantity it).
Proof.
  unfold gomachi_item. intros H. destruct il as [i line].
  destruct (has "BUTADON" line || _ || _); [|discriminate].
  destruct (Qltb 0 _ && _); [|discriminate].
  apply bind_returns in H as ([q line'] & Hq & H).
  apply marker_or_prefix_quantity_every in Hq.
  injection H as <-. exact Hq.
Qed.

Lemma chatime_pattern_item_quantity (lines : list str) (il : nat * str) (it : item) :
  chatime_pattern_item lines il = Returns (Some it) -> P (quantity it).
Proof.
  unfold chatime_pattern_item. intros H. destruct il as [i line].
  destruct (search chatime_item_pattern line) as [m|] eqn:E; [|discriminate].
  apply bind_returns in H as (q & Hq & H).
  injection H as <-. cbn [quantity].
  exact (int_call_every _ _ (chatime_item_pattern_group _ _ E) Hq).
Qed.


End EveryQuantity.

Lemma digit_string_nonneg (w : str) :
  digit_string w -> length w <= max_str_digits -> (0 <= digits_value w)%Z.
Proof. intros [H _] _. now apply digits_value_nonneg. Qed.


(** ** Line items *)




(** ** Rendering an amount and reading it back *)

Lemma digit_char_val (d : Z) :
  (0 <= d < 10)%Z ->
  digit_val (digit_char d) = d /\ is_digit (digit_char d) = true.
Proof.
  intros Hd. unfold digit_val, digit_char, is_digit, code.
  rewrite nat_ascii_embedding by lia.
  split; [lia|].
  apply andb_true_iff. split; apply Nat.leb_le; lia.
Qed.

Lemma fold_digits_app (w : str) :
  forall acc : Z,
    fold_left (fun a c => (a * 10 + digit_val c)%Z) w acc
    = (acc * 10 ^ Z.of_nat (length w) + digits_value w)%Z.
Proof.
  unfold digits_value.
  induction w as [|c w IH]; intros acc; cbn [fold_left length].
  - cbn. lia.
  - rewrite IH. rewrite (IH (0 * 10 + digit_val c)%Z).
    rewrite Nat2Z.inj_succ, Z.pow_succ_r by lia. ring.
Qed.

Lemma digits_value_app (a b : str) :
  digits_value (a ++ b)
  = (digits_value a * 10 ^ Z.of_nat (length b) + digits_value b)%Z.
Proof.
  unfold digits_value at 1. rewrite fold_left_app.
  apply fold_digits_app.
Qed.

Lemma digits_of_fuel_spec :
  forall (fuel : nat) (n : Z),
    (0 <= n < 2 ^ Z.of_nat (S fuel))%Z ->
    forallb is_digit (digits_of_fuel fuel n) = true
    /\ digits_value (digits_of_fuel fuel n) = n
    /\ digits_of_fuel fuel n <> [].
Proof.
  induction fuel as [|fuel IH]; intros n Hn; cbn [digits_of_fuel].
  - change (2 ^ Z.of_nat 1)%Z with 2%Z in Hn.
    rewrite Z.mod_small by lia.
    destruct (digit_char_val n) as [Hv Hd]; [lia|].
    cbn [forallb]. rewrite Hd. unfold digits_value. cbn [fold_left].
    rewrite Hv. repeat split; try lia; discriminate.
  - destruct (n <? 10)%Z eqn:E.
    + apply Z.ltb_lt in E.
      destruct (digit_char_val n) as [Hv Hd]; [lia|].
      cbn [forallb]. rewrite Hd. unfold digits_value. cbn [fold_left].
      rewrite Hv. repeat split; try lia; discriminate.
    + apply Z.ltb_ge in E.
      assert (Hq : (0 <= n / 10 < 2 ^ Z.of_nat (S fuel))%Z).
      { split; [apply Z.div_pos; lia|].
        apply Z.div_lt_upper_bound; [lia|].
        rewrite (Nat2Z.inj_succ (S fuel)), Z.pow_succ_r in Hn by lia.
        assert (0 < 2 ^ Z.of_nat (S fuel))%Z by (apply Z.pow_pos_nonneg; lia).
        lia. }
      destruct (IH _ Hq) as (Hall & Hval & Hne).
      destruct (digit_char_val (n mod 10)) as [Hv Hd];
        [apply Z.mod_pos_bound; lia|].
      repeat split.
      * rewrite forallb_app, Hall. cbn [forallb]. now rewrite Hd.
      * rewrite digits_value_app, Hval. unfold digits_value at 1.
        cbn [fold_left length]. rewrite Hv.
        change (10 ^ Z.of_nat 1)%Z with 10%Z.
        pose proof (Z.div_mod n 10). lia.
      * intros Happ. apply app_eq_nil in Happ as [_ Happ]. discriminate.
Qed.

Lemma digits_of_spec (n : Z) :
  (0 <= n)%Z ->
  forallb is_digit (digits_of n) = true
  /\ digits_value (digits_of n) = n
  /\ digits_of n <> [].
Proof.
  intros Hn. unfold digits_of. apply digits_of_fuel_spec.
  split; [exact Hn|].
  rewrite Nat2Z.inj_succ, Z2Nat.id by apply Z.log2_nonneg.
  destruct (Z.eq_dec n 0) as [->|Hz]; [reflexivity|].
  apply Z.log2_spec. lia.
Qed.

(** Long division comes out even within [fuel] further digits when some
    power of ten, at most [10 ^ S fuel], clears the denominator. *)
Lemma frac_digits_spec (d : Z) :
  (0 < d)%Z ->
  forall (fuel : nat) (r : Z) (j : nat),
    (0 <= r < d)%Z ->
    j <= S fuel ->
    ((r * 10 ^ Z.of_nat j) mod d = 0)%Z ->
    forallb is_digit (frac_digits fuel r d) = true
    /\ (digits_value (frac_digits fuel r d) * d
        = r * 10 ^ Z.of_nat (length (frac_digits fuel r d)))%Z.
Proof.
  intros Hd.
  assert (Hq : forall r, (0 <= r < d)%Z -> (0 <= 10 * r / d < 10)%Z).
  { intros r Hr. split; [apply Z.div_pos; lia|].
    apply Z.div_lt_upper_bound; lia. }
  assert (Hlast : forall r,
             (0 <= r < d)%Z -> ((10 * r) mod d = 0)%Z ->
             forallb is_digit [digit_char (10 * r / d)] = true
             /\ (digits_value [digit_char (10 * r / d)] * d
                 = r * 10 ^ Z.of_nat 1)%Z).
  { intros r Hr Hm.
    destruct (digit_char_val _ (Hq r Hr)) as [Hv Hdig].
    cbn [forallb]. rewrite Hdig. split; [reflexivity|].
    unfold digits_value. cbn [fold_left]. rewrite Hv.
    change (10 ^ Z.of_nat 1)%Z with 10%Z.
    pose proof (Z.div_mod (10 * r) d). lia. }
  induction fuel as [|fuel IH]; intros r j Hr Hj Hm; cbn [frac_digits].
  - apply Hlast; [exact Hr|].
    destruct j as [|[|j]]; [| |lia].
    + cbn in Hm. rewrite Z.mul_1_r, Z.mod_small in Hm by lia. now subst r.
    + change (10 ^ Z.of_nat 1)%Z with 10%Z in Hm. now rewrite Z.mul_comm.
  - destruct ((10 * r) mod d =? 0)%Z eqn:E.
    + apply Z.eqb_eq in E. now apply Hlast.
    + apply Z.eqb_neq in E.
      destruct j as [|j].
      { cbn in Hm. rewrite Z.mul_1_r, Z.mod_small in Hm by lia. subst r.
        exfalso. apply E. now rewrite Z.mul_0_r. }
      assert (Hr' : (0 <= (10 * r) mod d < d)%Z) by (apply Z.mod_pos_bound; lia).
      assert (Hm' : (((10 * r) mod d * 10 ^ Z.of_nat j) mod d = 0)%Z).
      { rewrite Z.mul_mod_idemp_l by lia.
        rewrite Nat2Z.inj_succ, Z.pow_succ_r in Hm by lia.
        rewrite <- Hm. f_equal. ring. }
      destruct (IH _ j Hr' ltac:(lia) Hm') as (Hall & Hval).
      destruct (digit_char_val _ (Hq r Hr)) as [Hv Hdig].
      split.
      * cbn [forallb]. now rewrite Hdig, Hall.
      * change (digit_char (10 * r / d) :: frac_digits fuel ((10 * r) mod d) d)
          with ([digit_char (10 * r / d)] ++ frac_digits fuel ((10 * r) mod d) d).
        rewrite digits_value_app, length_app.
        unfold digits_value at 1. cbn [fold_left length]. rewrite Hv.
        rewrite Z.mul_add_distr_r, Hval.
        rewrite Nat2Z.inj_add, Z.pow_add_r by lia.
        change (10 ^ Z.of_nat 1)%Z with 10%Z.
        pose proof (Z.div_mod (10 * r) d). nia.
Qed.

Lemma takewhile_app_stop (f : ascii -> bool) (a : str) (c : ascii) (b : str) :
  forallb f a = true -> f c = false ->
  takewhile f (a ++ c :: b) = a /\ dropwhile f (a ++ c :: b) = c :: b.
Proof.
  intros Ha Hc. induction a as [|x a IH]; cbn [app takewhile dropwhile].
  - now rewrite Hc.
  - cbn [forallb] in Ha. apply andb_true_iff in Ha as [Hx Ha].
    rewrite Hx. destruct (IH Ha) as [-> ->]. now split.
Qed.

Lemma pow10_pos (n : nat) : Zpos (pow10 n) = (10 ^ Z.of_nat n)%Z.
Proof.
  unfold pow10. apply Z2Pos.id. apply Z.pow_pos_nonneg; lia.
Qed.

Lemma py_float_point (ip fp : str) :
  forallb is_digit ip = true -> ip <> [] -> forallb is_digit fp = true ->
  py_float (ip ++ "."%char :: fp)
  = Some (Qmake (digits_value (ip ++ fp)) (pow10 (length fp))).
Proof.
  intros Hip Hne Hfp. unfold py_float.
  destruct (takewhile_app_stop is_digit ip "."%char fp Hip eq_refl) as [-> ->].
  rewrite Hfp. destruct ip; [contradiction|]. reflexivity.
Qed.

Lemma log2_pow10 (k : nat) : (Z.of_nat k <= Z.log2 (10 ^ Z.of_nat k))%Z.
Proof.
  rewrite <- (Z.log2_pow2 (Z.of_nat k)) at 1 by lia.
  apply Z.log2_le_mono. apply Z.pow_le_mono_l. lia.
Qed.

Lemma repr_float_shape (v : Q) :
  decimal_amount v ->
  exists ip fp,
    repr_float v = ip ++ "."%char :: fp
    /\ forallb is_digit ip = true /\ ip <> []
    /\ forallb is_digit fp = true
    /\ (Qmake (digits_value (ip ++ fp)) (pow10 (length fp)) == v)%Q.
Proof.
  intros [Hn [k Hk]]. unfold repr_float.
  destruct (Z.ltb_spec (Qnum v) 0) as [Hneg|_]; [lia|].
  rewrite Z.abs_eq by exact Hn. cbn [app].
  set (n := Qnum v) in *. set (d := Zpos (Qden v)) in *.
  assert (Hd : (0 < d)%Z) by (subst d; lia).
  assert (Hr : (0 <= n mod d < d)%Z) by (apply Z.mod_pos_bound; lia).
  destruct (digits_of_spec (n / d)) as (Hip & Hipv & Hipne);
    [apply Z.div_pos; lia|].
  destruct (frac_digits_spec d Hd (Z.to_nat (Z.log2 d)) (n mod d) k Hr)
    as (Hfp & Hfpv).
  { rewrite Hk. pose proof (log2_pow10 k). lia. }
  { rewrite Hk. apply Z.mod_mul.
    assert (0 < 10 ^ Z.of_nat k)%Z by (apply Z.pow_pos_nonneg; lia). lia. }
  exists (digits_of (n / d)), (frac_digits (Z.to_nat (Z.log2 d)) (n mod d) d).
  split; [reflexivity|]. repeat split; auto.
  unfold Qeq. cbn [Qnum Qden]. rewrite pow10_pos, digits_value_app, Hipv.
  fold n. fold d.
  rewrite Z.mul_add_distr_r, Hfpv.
  pose proof (Z.div_mod n d). nia.
Qed.

Lemma fix_price_format_decimal (price_str : str) :
  decimal_amount (fix_price_format price_str).
Proof.
  unfold fix_price_format.
  destruct (py_float _) as [v|] eqn:E.
  - assert (Hv : decimal_amount v).
    { split; [pose proof (py_float_nonneg _ _ E) as H; unfold Qle in H;
              cbn in H; lia|].
      unfold py_float in E.
      destruct (dropwhile is_digit _) as [|c fp].
      - destruct (is_nil _); [discriminate|]. injection E as <-.
        exists 0. reflexivity.
      - destruct (_ && _); [|discriminate]. injection E as <-.
        exists (length fp). cbn [Qden]. apply pow10_pos. }
    destruct (Qltb 0 v && Qltb v 1000); [|exact Hv].
    destruct Hv as [Hn [k Hk]]. split.
    + cbn. lia.
    + exists k. cbn. rewrite Pos.mul_1_r. exact Hk.
  - split; [cbn; lia|]. exists 0. reflexivity.
Qed.

Lemma Qltb_false (a b : Q) : Qltb a b = false <-> (b <= a)%Q.
Proof.
  unfold Qltb. rewrite negb_false_iff. apply Qle_bool_iff.
Qed.

Lemma digit_is_numeric (w : str) :
  forallb is_digit w = true -> forallb Spec.numeric_char w = true.
Proof.
  intros H. apply forallb_forall. intros x Hx.
  rewrite forallb_forall in H. unfold Spec.numeric_char.
  now rewrite (H x Hx).
Qed.

Lemma digit_no_comma (w : str) :
  forallb is_digit w = true -> Spec.occurs ","%char w = false.
Proof.
  unfold Spec.occurs. induction w as [|x w IH]; [reflexivity|].
  cbn [forallb existsb]. intros H. apply andb_true_iff in H as [Hx Hw].
  rewrite (IH Hw), orb_false_r.
  destruct (ascii_eqb ","%char x) eqn:E; [|reflexivity].
  apply Ascii.eqb_eq in E. subst x. discriminate Hx.
Qed.

(** Normalising the rendering of a decimal amount reads the amount back and
    applies the below-1000 correction to it. *)
Lemma fix_price_format_repr (v : Q) :
  decimal_amount v ->
  exists v',
    (v' == v)%Q
    /\ fix_price_format (repr_float v)
       = if Qltb 0 v' && Qltb v' 1000 then (v' * 1000)%Q else v'.
Proof.
  intros Hv.
  destruct (repr_float_shape v Hv) as (ip & fp & Hrepr & Hip & Hne & Hfp & Heq).
  eexists. split; [exact Heq|].
  unfold fix_price_format. rewrite Hrepr.
  assert (Hnum : forallb Spec.numeric_char (ip ++ "."%char :: fp) = true).
  { rewrite forallb_app. cbn [forallb].
    now rewrite (digit_is_numeric _ Hip), (digit_is_numeric _ Hfp). }
  rewrite strip_non_numeric_filter, (filter_all _ _ Hnum).
  rewrite fix_separators_no_comma.
  - now rewrite py_float_point.
  - change (L ",") with [","%char]. rewrite contains_char.
    unfold Spec.occurs. rewrite existsb_app. cbn [existsb].
    fold (Spec.occurs ","%char ip). fold (Spec.occurs ","%char fp).
    now rewrite (digit_no_comma _ Hip), (digit_no_comma _ Hfp).
Qed.

(** C5 as stated fails: ["0.5"] is an amount string, its normal form is 500,
    which renders as ["500.0"], and normalising that gives 500000. *)
Lemma renormalizing_small_amount :
  Spec.amount_string (L "0.5")
  /\ repr_float (fix_price_format (L "0.5")) = L "500.0"
  /\ (fix_price_format (L "0.5") == 500)%Q
  /\ (fix_price_format (repr_float (fix_price_format (L "0.5"))) == 500000)%Q
  /\ ~ (fix_price_format (repr_float (fix_price_format (L "0.5")))
        == fix_price_format (L "0.5"))%Q.
Proof.
  split; [|split; [|split; [|split]]].
  - exists (L "0.5"). eexists. split; vm_compute; reflexivity.
  - vm_compute. reflexivity.
  - vm_compute. reflexivity.
  - vm_compute. reflexivity.
  - vm_compute. discriminate.
Qed.

(** C5, as the code has it.  For an amount string whose normal form [v] is
    zero, or at least 1000 and below 1e16 (where [repr] is positional),
    normalising the rendering of [v] gives [v] again; ["12345.0"] is sent
    to 12345. *)
Theorem renormalizing_is_stable :
  forall w : str,
    Spec.amount_string w ->
    (fix_price_format w == 0
     \/ (1000 <= fix_price_format w /\ fix_price_format w < 10 ^ 16))%Q ->
    (fix_price_format (repr_float (fix_price_format w)) == fix_price_format w)%Q
    /\ repr_float 12345 = L "12345.0"
    /\ (fix_price_format (L "12345.0") == 12345)%Q.
Proof.
  intros w _ Hrange.
  split; [|split; vm_compute; reflexivity].
  destruct (fix_price_format_repr _ (fix_price_format_decimal w))
    as (v' & Heq & ->).
  assert (Hcond : Qltb 0 v' && Qltb v' 1000 = false).
  { apply andb_false_iff. destruct Hrange as [H0|[H1 _]].
    - left. apply Qltb_false. rewrite Heq, H0. apply Qle_refl.
    - right. apply Qltb_false. now rewrite Heq. }
  rewrite Hcond. exact Heq.
Qed.

Lemma renormalizing_is_stable_witness :
  (fix_price_format (repr_float (fix_price_format (L "25.000")))
   == fix_price_format (L "25.000"))%Q.
Proof.
  apply (renormalizing_is_stable (L "25.000")).
  - exists (L "2 GYOZA 25.000"). eexists. split; vm_compute; reflexivity.
  - right. split; [vm_compute; discriminate | vm_compute; reflexivity].
Defined.

(** ** Indices of the item section

    The loop over the item section indexes [sorted_text] at [i] and at
    [i - 1]; both stay within the list. *)

Lemma first_index_bound {T : Type} (f : T -> bool) (l : list T) :
  forall i j, first_index f l i = Some j -> i <= j < i + length l.
Proof.
  induction l as [|x l IH]; intros i j H; cbn [first_index] in H;
    [discriminate|].
  destruct (f x).
  - injection H as <-. cbn [length]. lia.
  - apply IH in H. cbn [length]. lia.
Qed.

Lemma item_section_in_bounds (sorted_text : list text_result) (i : nat) :
  In i (range (header_end_idx sorted_text) (footer_start_idx sorted_text)) ->
  1 <= i < length sorted_text.
Proof.
  unfold range. intros H. apply in_seq in H.
  assert (Hh : (1 <= header_end_idx sorted_text)%Z).
  { unfold header_end_idx. destruct (first_index _ _ _); lia. }
  assert (Hf : (footer_start_idx sorted_text < Z.of_nat (length sorted_text))%Z).
  { unfold footer_start_idx.
    destruct (first_index _ _ _) as [j|] eqn:E.
    - apply first_index_bound in E. lia.
    - lia. }
  lia.
Qed.

(** ** Text without digits *)

Lemma is_digit_lower (x : ascii) : is_digit (lower_char x) = true -> is_digit x = true.
Proof.
  unfold lower_char. destruct (is_upper x) eqn:E; [|auto].
  unfold is_upper in E. apply andb_true_iff in E as [H1 H2].
  apply Nat.leb_le in H1. apply Nat.leb_le in H2.
  unfold is_digit, code. rewrite nat_ascii_embedding by (unfold code in *; lia).
  intros H. apply andb_true_iff in H as [_ H]. apply Nat.leb_le in H.
  unfold code in *. lia.
Qed.

Lemma is_digit_upper (x : ascii) : is_digit (upper_char x) = true -> is_digit x = true.
Proof.
  unfold upper_char. destruct (is_lower x) eqn:E; [|auto].
  unfold is_lower in E. apply andb_true_iff in E as [H1 H2].
  apply Nat.leb_le in H1. apply Nat.leb_le in H2.
  unfold is_digit, code. rewrite nat_ascii_embedding by (unfold code in *; lia).
  intros H. apply andb_true_iff in H as [_ H]. apply Nat.leb_le in H.
  unfold code in *. lia.
Qed.

Lemma digit_class_match (ic : bool) (x : ascii) :
  set_match ic false [CDigit] x = true -> is_digit x = true.
Proof.
  unfold set_match. cbn [existsb cset_in xorb]. rewrite !orb_false_r.
  destruct ic; [|auto].
  intros H. apply orb_true_iff in H as [H|H];
    [apply orb_true_iff in H as [H|H]|]; auto using is_digit_lower, is_digit_upper.
Qed.

(** A run consumes a prefix of the text ahead, with a digit in it when the
    pattern needs one. *)
Lemma run_consumes (ic : bool) (r : regex) (st st' : mstate) :
  run ic r st st' ->
  exists w,
    ms_rest st = w ++ ms_rest st'
    /\ (needs_digit r = true -> existsb is_digit w = true).
Proof.
  induction 1 as [ st | c x t st Hx Hm | neg items x t st Hx Hm | x t st Hx Hm
                 | st Hp | st He
                 | r1 r2 st st1 st2 _ IH1 _ IH2
                 | r1 r2 st st' _ IH | r1 r2 st st' _ IH
                 | greedy hi r st
                 | greedy lo hi r st st1 st2 _ IH1 _ IH2
                 | m r st st' _ IH ];
    cbn [needs_digit advance ms_rest].
  - exists []. split; [reflexivity | discriminate].
  - exists [x]. split; [exact Hx | discriminate].
  - exists [x]. split; [exact Hx|].
    destruct neg; [discriminate|].
    destruct items as [|[| | |] [|? ?]]; try discriminate.
    intros _. cbn [existsb]. now rewrite (digit_class_match _ _ Hm).
  - exists [x]. split; [exact Hx | discriminate].
  - exists []. split; [reflexivity | discriminate].
  - exists []. split; [reflexivity | discriminate].
  - destruct IH1 as (w1 & E1 & D1). destruct IH2 as (w2 & E2 & D2).
    exists (w1 ++ w2). split; [now rewrite E1, E2, app_assoc|].
    intros H. rewrite existsb_app. apply orb_true_iff in H as [H|H].
    + now rewrite D1.
    + rewrite D2 by exact H. apply orb_true_r.
  - destruct IH as (w & E & D). exists w. split; [exact E|].
    intros H. apply andb_true_iff in H as [H _]. auto.
  - destruct IH as (w & E & D). exists w. split; [exact E|].
    intros H. apply andb_true_iff in H as [_ H]. auto.
  - exists []. split; [reflexivity | discriminate].
  - destruct IH1 as (w1 & E1 & D1). destruct IH2 as (w2 & E2 & _).
    exists (w1 ++ w2). split; [now rewrite E1, E2, app_assoc|].
    intros H. apply andb_true_iff in H as [_ H].
    rewrite existsb_app, D1 by exact H. reflexivity.
  - destruct IH as (w & E & D). exists w. split; [exact E | exact D].
Qed.

Lemma match_at_digit_free (ic : bool) (r : regex) (pos : nat) (rest : str) :
  needs_digit r = true -> digit_free rest -> match_at ic r pos rest = None.
Proof.
  intros Hr Hfree. destruct (match_at ic r pos rest) as [m|] eqn:E; [|reflexivity].
  unfold match_at in E. apply exec_sound in E as (st' & Hrun & _).
  apply run_consumes in Hrun as (w & Hw & Hd). cbn [ms_rest] in Hw.
  unfold digit_free in Hfree. rewrite Hw, existsb_app, (Hd Hr) in Hfree.
  discriminate.
Qed.

Lemma search_from_digit_free (ic : bool) (r : regex) :
  needs_digit r = true ->
  forall rest pos, digit_free rest -> search_from ic r pos rest = None.
Proof.
  intros Hr. induction rest as [|c rest IH]; intros pos Hfree;
    cbn [search_from]; rewrite (match_at_digit_free ic r pos _ Hr Hfree).
  - reflexivity.
  - apply IH. unfold digit_free in *. cbn [existsb] in Hfree.
    now apply orb_false_iff in Hfree as [_ Hfree].
Qed.

(** ** Sorting by height *)

Lemma insert_by_y_perm (t : text_result) (l : list text_result) :
  Permutation (insert_by_y t l) (t :: l).
Proof.
  induction l as [|u l IH]; cbn [insert_by_y]; [reflexivity|].
  destruct (Qle_bool (top_y t) (top_y u)); [reflexivity|].
  rewrite IH. apply perm_swap.
Qed.

Lemma sorted_by_y_perm (l : list text_result) : Permutation (sorted_by_y l) l.
Proof.
  induction l as [|t l IH]; cbn [sorted_by_y fold_right]; [reflexivity|].
  fold (sorted_by_y l). rewrite insert_by_y_perm. now constructor.
Qed.

Lemma Qle_bool_total (a b : Q) : Qle_bool a b = false -> Qle_bool b a = true.
Proof.
  intros H. apply Qle_bool_iff. apply Qlt_le_weak. apply Qnot_le_lt.
  intros Hle. apply Qle_bool_iff in Hle. congruence.
Qed.

Lemma insert_by_y_sorted (t : text_result) (l : list text_result) :
  Sorted (fun a b => Qle_bool (top_y a) (top_y b) = true) l ->
  Sorted (fun a b => Qle_bool (top_y a) (top_y b) = true) (insert_by_y t l).
Proof.
  induction l as [|u l IH]; intros Hs; cbn [insert_by_y].
  - repeat constructor.
  - destruct (Qle_bool (top_y t) (top_y u)) eqn:E.
    + constructor; [exact Hs | now constructor].
    + inversion Hs as [|? ? Hs' Hhd]; subst.
      constructor; [now apply IH|].
      destruct l as [|v l]; cbn [insert_by_y].
      * constructor. now apply Qle_bool_total.
      * destruct (Qle_bool (top_y t) (top_y v)).
        -- constructor. now apply Qle_bool_total.
        -- inversion Hhd; subst. now constructor.
Qed.

Lemma sorted_by_y_sorted (l : list text_result) :
  Sorted (fun a b => Qle_bool (top_y a) (top_y b) = true) (sorted_by_y l).
Proof.
  induction l as [|t l IH]; cbn [sorted_by_y fold_right]; [constructor|].
  now apply insert_by_y_sorted.
Qed.

(** Two insertions commute unless they concern different tokens at the
    same height. *)
Lemma insert_by_y_comm (a b : text_result) (l : list text_result) :
  (a = b \/ ~ (top_y a == top_y b)%Q) ->
  insert_by_y a (insert_by_y b l) = insert_by_y b (insert_by_y a l).
Proof.
  intros [->|Hne]; [reflexivity|].
  assert (Hab : Qle_bool (top_y a) (top_y b) = negb (Qle_bool (top_y b) (top_y a))).
  { destruct (Qle_bool (top_y a) (top_y b)) eqn:E1,
             (Qle_bool (top_y b) (top_y a)) eqn:E2; try reflexivity.
    - exfalso. apply Hne. apply Qle_bool_iff in E1. apply Qle_bool_iff in E2.
      now apply Qle_antisym.
    - apply Qle_bool_total in E1. congruence. }
  induction l as [|u l IH]; cbn [insert_by_y].
  - rewrite Hab. destruct (Qle_bool (top_y b) (top_y a)); reflexivity.
  - destruct (Qle_bool (top_y a) (top_y u)) eqn:Ea,
             (Qle_bool (top_y b) (top_y u)) eqn:Eb; cbn [insert_by_y].
    + rewrite Ea, Eb, Hab.
      destruct (Qle_bool (top_y b) (top_y a)); reflexivity.
    + rewrite Ea.
      assert (Hba : Qle_bool (top_y b) (top_y a) = false).
      { destruct (Qle_bool (top_y b) (top_y a)) eqn:E; [|reflexivity].
        apply Qle_bool_iff in E. apply Qle_bool_iff in Ea.
        assert (Hbu : Qle_bool (top_y b) (top_y u) = true)
          by (apply Qle_bool_iff; eapply Qle_trans; eauto).
        congruence. }
      rewrite Hba. cbn [insert_by_y]. now rewrite Eb.
    + rewrite Eb.
      assert (Hab' : Qle_bool (top_y a) (top_y b) = false).
      { destruct (Qle_bool (top_y a) (top_y b)) eqn:E; [|reflexivity].
        apply Qle_bool_iff in E. apply Qle_bool_iff in Eb.
        assert (Hau : Qle_bool (top_y a) (top_y u) = true)
          by (apply Qle_bool_iff; eapply Qle_trans; eauto).
        congruence. }
      rewrite Hab'. cbn [insert_by_y]. now rewrite Ea.
    + rewrite Ea, Eb. now rewrite IH.
Qed.

Lemma sorted_by_y_order_free (l1 l2 : list text_result) :
  Permutation l1 l2 ->
  distinct_heights l1 ->
  sorted_by_y l1 = sorted_by_y l2.
Proof.
  induction 1 as [| x l l' Hp IH | x y l | l l' l'' Hp1 IH1 Hp2 IH2];
    intros Hd.
  - reflexivity.
  - cbn [sorted_by_y fold_right]. fold (sorted_by_y l) (sorted_by_y l').
    rewrite IH; [reflexivity|].
    intros a b Ha Hb. apply Hd; now right.
  - cbn [sorted_by_y fold_right]. fold (sorted_by_y l).
    apply insert_by_y_comm.
    destruct (Qeq_dec (top_y y) (top_y x)) as [E|E]; [left|now right].
    apply Hd; [left; reflexivity | right; left; reflexivity | exact E].
  - rewrite IH1 by exact Hd. apply IH2.
    intros a b Ha Hb.
    apply Hd; apply (Permutation_in _ (Permutation_sym Hp1)); assumption.
Qed.

Lemma digit_free_incl (a b : str) :
  (forall x, In x a -> In x b) -> digit_free b -> digit_free a.
Proof.
  unfold digit_free. intros Hincl Hb.
  destruct (existsb is_digit a) eqn:E; [|reflexivity].
  apply existsb_exists in E as (x & Hx & Hd).
  assert (existsb is_digit b = true) by (apply existsb_exists; eauto).
  congruence.
Qed.

Lemma dropwhile_In (f : ascii -> bool) (w : str) (x : ascii) :
  In x (dropwhile f w) -> In x w.
Proof.
  induction w as [|c w IH]; cbn [dropwhile]; [auto|].
  destruct (f c); [right; auto | auto].
Qed.

Lemma strip_In (w : str) (x : ascii) : In x (strip w) -> In x w.
Proof.
  unfold strip, rstrip, lstrip. intros H.
  apply (proj2 (in_rev _ _)) in H. apply dropwhile_In in H.
  apply (proj2 (in_rev _ _)) in H. now apply dropwhile_In in H.
Qed.

Lemma digit_free_strip (w : str) : digit_free w -> digit_free (strip w).
Proof. apply digit_free_incl. apply strip_In. Qed.

Lemma split_on_In (sep : ascii) (w : str) :
  forall piece x, In piece (split_on sep w) -> In x piece -> In x w.
Proof.
  induction w as [|c w IH]; intros piece x Hp Hx; cbn [split_on] in Hp.
  - destruct Hp as [<-|[]]. destruct Hx.
  - destruct (ascii_eqb c sep).
    + destruct Hp as [<-|Hp]; [destruct Hx|]. right. eauto.
    + destruct (split_on sep w) as [|p ps] eqn:E.
      * destruct Hp as [<-|[]]. destruct Hx as [<-|[]]. now left.
      * destruct Hp as [<-|Hp].
        -- destruct Hx as [<-|Hx]; [now left|].
           right. apply (IH p); [now left | exact Hx].
        -- right. apply (IH piece); [now right | exact Hx].
Qed.

Lemma join_In (sep : str) (parts : list str) (x : ascii) :
  In x (join sep parts) ->
  In x sep \/ exists p, In p parts /\ In x p.
Proof.
  induction parts as [|p ps IH]; cbn [join]; [intros []|].
  destruct ps as [|q ps].
  - intros H. right. exists p. split; [now left | exact H].
  - intros H. apply in_app_or in H as [H|H].
    + right. exists p. split; [now left | exact H].
    + apply in_app_or in H as [H|H]; [now left|].
      destruct (IH H) as [Hs|(p' & Hp' & Hx)]; [now left|].
      right. exists p'. split; [now right | exact Hx].
Qed.

Lemma collect_none {T : Type} (body : T -> outcome (option item))
    (rounds : list T) :
  (forall x, In x rounds -> body x = Returns None) ->
  collect body rounds = Returns [].
Proof.
  intros H. induction rounds as [|x rounds IH]; [reflexivity|].
  cbn [collect]. rewrite (H x) by now left. cbn [bind].
  rewrite IH; [reflexivity|]. intros y Hy. apply H. now right.
Qed.

Lemma enumerate_In {T : Type} (l : list T) (i : nat) (x : T) :
  In (i, x) (enumerate l) -> In x l.
Proof. unfold enumerate. apply in_combine_r. Qed.

Lemma price_search_digit_free (line : str) :
  digit_free line -> search price_pattern line = None.
Proof. intros H. now apply search_from_digit_free. Qed.

Lemma Qltb_irrefl (a : Q) : Qltb a a = false.
Proof. apply Qltb_false. apply Qle_refl. Qed.

Section DigitFree.

Variable lines : list str.
Hypothesis lines_free : forall line, In line lines -> digit_free line.

Lemma next_line_free (i : nat) (next_line : str) :
  nth_error lines i = Some next_line -> digit_free next_line.
Proof. intros H. apply lines_free. eapply nth_error_In; eauto. Qed.

Lemma alternative_item_digit_free (il : nat * str) :
  In il (enumerate lines) -> alternative_item lines il = Returns None.
Proof.
  destruct il as [i line]. intros H. apply enumerate_In in H.
  unfold alternative_item.
  rewrite (price_search_digit_free line) by auto.
  destruct (i <? 3); [reflexivity|]. now destruct (contains_any _ _).
Qed.

Lemma sushigo_item_digit_free (il : nat * str) :
  In il (enumerate lines) -> sushigo_item il = Returns None.
Proof.
  destruct il as [i line]. intros H. apply enumerate_In in H.
  unfold sushigo_item.
  rewrite (price_search_digit_free line) by auto.
  now destruct (_ || _).
Qed.

Lemma gomachi_item_digit_free (il : nat * str) :
  In il (enumerate lines) -> gomachi_item lines il = Returns None.
Proof.
  destruct il as [i line]. intros H. apply enumerate_In in H.
  unfold gomachi_item.
  rewrite (price_search_digit_free line) by auto.
  destruct (_ || _); [|reflexivity].
  destruct (nth_error lines (i + 1)) as [next_line|] eqn:E.
  - rewrite (price_search_digit_free next_line)
      by (eapply next_line_free; eauto).
    now rewrite Qltb_irrefl.
  - now rewrite Qltb_irrefl.
Qed.

Lemma chatime_pattern_item_digit_free (il : nat * str) :
  In il (enumerate lines) -> chatime_pattern_item lines il = Returns None.
Proof.
  destruct il as [i line]. intros H. apply enumerate_In in H.
  unfold chatime_pattern_item, search.
  now rewrite search_from_digit_free by auto.
Qed.

Lemma chatime_x_item_digit_free (il : nat * str) :
  In il (enumerate lines) -> chatime_x_item lines il = None.
Proof.
  destruct il as [i line]. intros H. apply enumerate_In in H.
  unfold chatime_x_item.
  rewrite (price_search_digit_free line) by auto.
  destruct (_ && _); [|reflexivity].
  destruct (nth_error lines (i + 1)) as [next_line|] eqn:E.
  - unfold rmatch_start.
    rewrite match_at_digit_free;
      [| reflexivity
       | apply digit_free_strip; eapply next_line_free; eauto].
    cbn [is_some]. now rewrite Qltb_irrefl.
  - now rewrite Qltb_irrefl.
Qed.

End DigitFree.

Lemma section_item_digit_free (sorted_text : list text_result) (i : nat) :
  (forall t, In t sorted_text -> digit_free (text t)) ->
  In i (range (header_end_idx sorted_text) (footer_start_idx sorted_text)) ->
  section_item sorted_text i = Returns None.
Proof.
  intros Hfree Hi. apply item_section_in_bounds in Hi.
  unfold section_item.
  destruct (nth_error sorted_text i) as [t|] eqn:E.
  - rewrite price_search_digit_free; [reflexivity|].
    apply Hfree. eapply nth_error_In; eauto.
  - apply nth_error_None in E. lia.
Qed.

Lemma extract_items_digit_free (text_results : list text_result)
    (rt : receipt_type) (full_text : str) :
  (forall t, In t text_results -> digit_free (text t)) ->
  digit_free full_text ->
  extract_items text_results rt full_text = Returns [].
Proof.
  intros Htok Htext.
  assert (Hlines : forall line,
             In line (split_on newline full_text) -> digit_free line).
  { intros line Hl. apply (digit_free_incl line full_text); [|exact Htext].
    intros x Hx. exact (split_on_In newline full_text line x Hl Hx). }
  assert (Halt : forall rt',
             extract_items_alternative full_text rt' = Returns []).
  { intros rt'. unfold extract_items_alternative.
    rewrite (collect_none (alternative_item _))
      by (intros; now apply alternative_item_digit_free).
    cbn [bind].
    destruct rt'; try reflexivity; cbn [is_nil]; apply collect_none; intros.
    - now apply gomachi_item_digit_free.
    - now apply sushigo_item_digit_free with (lines := split_on newline full_text). }
  assert (Hgen :
            (let sorted_text := sorted_by_y text_results in
             items <-
               collect (section_item sorted_text)
                 (range (header_end_idx sorted_text)
                    (footer_start_idx sorted_text)) ;;
             if is_nil items then extract_items_alternative full_text rt
             else Returns items) = Returns []).
  { cbv zeta. rewrite collect_none; [apply Halt|].
    intros i Hi. apply section_item_digit_free; [|exact Hi].
    intros t Ht. apply Htok.
    exact (Permutation_in _ (sorted_by_y_perm text_results) Ht). }
  unfold extract_items. destruct rt; try exact Hgen.
  unfold extract_items_from_chatime_receipt. cbv zeta.
  rewrite (collect_none (chatime_pattern_item _))
    by (intros; now apply chatime_pattern_item_digit_free).
  cbn [bind is_nil]. apply collect_none. intros.
  f_equal. now apply chatime_x_item_digit_free.
Qed.

Lemma extract_amount_digit_free (p : regex) (full_text : str) :
  needs_digit p = true -> digit_free full_text ->
  extract_amount p full_text = None.
Proof.
  intros Hp Hfree. unfold extract_amount, isearch.
  now rewrite search_from_digit_free.
Qed.

Lemma full_text_digit_free (ocr : list ocr_line) :
  (forall l, In l ocr -> digit_free (ol_text l)) ->
  digit_free (snd (extract_text ocr)).
Proof.
  intros H. unfold extract_text. cbn [snd].
  unfold digit_free.
  destruct (existsb is_digit _) eqn:E; [|reflexivity].
  apply existsb_exists in E as (x & Hx & Hd).
  apply join_In in Hx as [Hx|(p & Hp & Hx)].
  - destruct Hx as [<-|[]]. discriminate Hd.
  - apply in_map_iff in Hp as (l & <- & Hl).
    specialize (H l Hl). unfold digit_free in H.
    assert (existsb is_digit (ol_text l) = true)
      by (apply existsb_exists; eauto).
    congruence.
Qed.

(** A receipt whose lines contain no digit: the pipeline succeeds with no
    item, no subtotal, tax or service charge, a total of zero and empty date
    and time. *)
Theorem receipt_without_digits :
  forall (sd st : str -> str) (ocr : list ocr_line),
    ocr <> [] ->
    (forall l, In l ocr -> digit_free (ol_text l)) ->
    exists r,
      process_receipt sd st ocr = Returns (Success r)
      /\ r_items r = []
      /\ r_subtotal r = None /\ r_tax r = None /\ r_service_charge r = None
      /\ r_total r = 0%Q
      /\ r_date r = [] /\ r_time r = [].
Proof.
  intros sd st ocr Hne Hfree.
  pose proof (full_text_digit_free ocr Hfree) as Htext.
  assert (Htok : forall t, In t (fst (extract_text ocr)) -> digit_free (text t)).
  { unfold extract_text. cbn [fst]. intros t Ht.
    apply in_map_iff in Ht as (l & <- & Hl). cbn [text]. now apply Hfree. }
  unfold process_receipt.
  destruct (extract_text ocr) as [text_results full_text] eqn:E.
  cbn [fst snd] in *.
  assert (Hnil : is_nil text_results = false).
  { unfold extract_text in E. injection E as <- _. now destruct ocr. }
  rewrite Hnil.
  unfold extract_date_time, search.
  rewrite !search_from_digit_free by (reflexivity || exact Htext).
  rewrite (extract_items_digit_free _ _ _ Htok Htext). cbn [bind].
  unfold extract_totals.
  rewrite !extract_amount_digit_free by (reflexivity || exact Htext).
  eexists. split; [reflexivity|]. repeat split.
Qed.

Lemma receipt_without_digits_witness :
  exists r,
    process_receipt unparsed unparsed [token 0 "TERIMA KASIH"]
    = Returns (Success r)
    /\ r_items r = [] /\ r_total r = 0%Q.
Proof.
  destruct (receipt_without_digits unparsed unparsed [token 0 "TERIMA KASIH"])
    as (r & Hr & Hi & _ & _ & _ & Ht & _).
  - discriminate.
  - intros l [<-|[]]. reflexivity.
  - exists r. auto.
Defined.

(** ** Lines of the full text *)

Lemma not_sep (sep c : ascii) (w : str) :
  ~ In sep (c :: w) -> ascii_eqb c sep = false /\ ~ In sep w.
Proof.
  intros H. split.
  - destruct (ascii_eqb c sep) eqn:E; [|reflexivity].
    apply Ascii.eqb_eq in E. subst c. exfalso. apply H. now left.
  - intros Hin. apply H. now right.
Qed.

Lemma split_on_no_sep (sep : ascii) (w : str) :
  ~ In sep w -> split_on sep w = [w].
Proof.
  induction w as [|c w IH]; intros H; cbn [split_on]; [reflexivity|].
  apply not_sep in H as [Hc Hw]. now rewrite Hc, (IH Hw).
Qed.

Lemma split_on_app_sep (sep : ascii) (w rest : str) :
  ~ In sep w -> split_on sep (w ++ sep :: rest) = w :: split_on sep rest.
Proof.
  induction w as [|c w IH]; intros H; cbn [split_on app].
  - unfold ascii_eqb. now rewrite Ascii.eqb_refl.
  - apply not_sep in H as [Hc Hw]. now rewrite Hc, (IH Hw).
Qed.

Lemma split_on_join (sep : ascii) (parts : list str) :
  parts <> [] ->
  (forall p, In p parts -> ~ In sep p) ->
  split_on sep (join [sep] parts) = parts.
Proof.
  induction parts as [|p ps IH]; intros Hne Hfree; [contradiction|].
  destruct ps as [|q ps].
  - cbn [join]. apply split_on_no_sep. apply Hfree. now left.
  - change (join [sep] (p :: q :: ps)) with (p ++ sep :: join [sep] (q :: ps)).
    rewrite split_on_app_sep by (apply Hfree; now left).
    f_equal. apply IH; [discriminate|].
    intros p' Hp'. apply Hfree. now right.
Qed.

(** When no recognised text contains a line break, the lines of
    [full_text] are the recognised texts, one per token and in detection
    order. *)
Theorem full_text_lines :
  forall ocr : list ocr_line,
    ocr <> [] ->
    (forall l, In l ocr -> ~ In newline (ol_text l)) ->
    split_on newline (snd (extract_text ocr))
    = map text (fst (extract_text ocr)).
Proof.
  intros ocr Hne Hfree. unfold extract_text. cbn [fst snd].
  rewrite map_map. cbn [text].
  apply split_on_join.
  - now destruct ocr.
  - intros p Hp. apply in_map_iff in Hp as (l & <- & Hl). now apply Hfree.
Qed.

Lemma full_text_lines_witness :
  split_on newline (snd (extract_text receipt_without_total_line))
  = map text (fst (extract_text receipt_without_total_line)).
Proof.
  apply (full_text_lines receipt_without_total_line).
  - discriminate.
  - intros l Hl Hin.
    assert (H : existsb (ascii_eqb newline) (ol_text l) = true).
    { apply existsb_exists. exists newline. split; [exact Hin|].
      apply Ascii.eqb_refl. }
    revert H. unfold receipt_without_total_line in Hl.
    repeat (destruct Hl as [<-|Hl]; [vm_compute; discriminate|]).
    destruct Hl.
Defined.

(** ** Receipts of at most three lines *)

Lemma first_index_none {T : Type} (f : T -> bool) (l : list T) :
  (forall x, In x l -> f x = false) -> forall i, first_index f l i = None.
Proof.
  induction l as [|x l IH]; intros H i; cbn [first_index]; [reflexivity|].
  rewrite (H x) by now left. apply IH. intros y Hy. apply H. now right.
Qed.

Lemma enumerate_index {T : Type} (l : list T) (i : nat) (x : T) :
  In (i, x) (enumerate l) -> i < length l.
Proof.
  unfold enumerate. intros H. apply in_combine_l in H.
  apply in_seq in H. lia.
Qed.

Lemma split_on_length_join (parts : list str) :
  (forall p, In p parts -> ~ In newline p) ->
  length (split_on newline (join [newline] parts)) <= Nat.max 1 (length parts).
Proof.
  intros H. destruct parts as [|p ps]; [cbn; lia|].
  rewrite split_on_join; [lia | discriminate | exact H].
Qed.

(** With at most three tokens, none of which holds a line break or a
    column-header keyword, a receipt of a type without a dedicated scan
    yields no item: the generic section starts at index 5 and the fallback
    skips the first three lines. *)
Theorem short_receipt_no_items :
  forall ocr : list ocr_line,
    length ocr <= 3 ->
    (forall l, In l ocr -> ~ In newline (ol_text l)) ->
    (forall l, In l ocr ->
               contains_any header_keywords (lower (ol_text l)) = false) ->
    identify_receipt_type (snd (extract_text ocr)) <> CHATIME ->
    identify_receipt_type (snd (extract_text ocr)) <> SUSHIGO ->
    identify_receipt_type (snd (extract_text ocr)) <> GOMACHI ->
    items_of ocr = Returns [].
Proof.
  intros ocr Hlen Hnl Hhdr Hc Hs Hg. unfold items_of.
  destruct (extract_text ocr) as [text_results full_text] eqn:E.
  cbn [snd] in *.
  assert (Etok : text_results = map (fun l => TextResult (ol_text l)
                                     (ol_position l) (ol_confidence l)) ocr)
    by (unfold extract_text in E; now injection E).
  assert (Etext : full_text = join [newline] (map ol_text ocr))
    by (unfold extract_text in E; now injection E).
  assert (Hgen : collect (section_item (sorted_by_y text_results))
                   (range (header_end_idx (sorted_by_y text_results))
                      (footer_start_idx (sorted_by_y text_results)))
                 = Returns []).
  { apply collect_none. intros i Hi. exfalso.
    pose proof (Permutation_length (sorted_by_y_perm text_results)) as Hl.
    assert (Hn : length (sorted_by_y text_results) <= 3)
      by (rewrite Hl, Etok, length_map; exact Hlen).
    assert (Hh : header_end_idx (sorted_by_y text_results) = 5%Z).
    { unfold header_end_idx. rewrite first_index_none.
      - unfold pct15. apply Z.max_l.
        apply Z.lt_le_incl, Z.div_lt_upper_bound; lia.
      - intros t Ht.
        apply (Permutation_in _ (sorted_by_y_perm text_results)) in Ht.
        rewrite Etok in Ht. apply in_map_iff in Ht as (l & <- & Hl').
        cbn [text]. now apply Hhdr. }
    assert (Hf : (footer_start_idx (sorted_by_y text_results) < 3)%Z).
    { unfold footer_start_idx.
      destruct (first_index _ _ _) as [j|] eqn:Ej.
      - apply first_index_bound in Ej. lia.
      - lia. }
    unfold range in Hi. rewrite Hh in Hi. apply in_seq in Hi. lia. }
  assert (Halt : collect (alternative_item (split_on newline full_text))
                   (enumerate (split_on newline full_text)) = Returns []).
  { apply collect_none. intros [i line] Hi.
    apply enumerate_index in Hi.
    assert (Hl : length (split_on newline full_text) <= 3).
    { rewrite Etext.
      etransitivity; [apply split_on_length_join|].
      - intros p Hp. apply in_map_iff in Hp as (l & <- & Hl'). now apply Hnl.
      - rewrite length_map. lia. }
    unfold alternative_item.
    destruct (Nat.ltb_spec i 3); [reflexivity | lia]. }
  unfold extract_items, extract_items_alternative.
  destruct (identify_receipt_type full_text); try contradiction;
    cbv zeta; rewrite Hgen; cbn [bind is_nil]; rewrite Halt; reflexivity.
Qed.

Lemma short_receipt_no_items_witness :
  items_of [token 0 "WARUNG SEDERHANA"; token 10 "NASI GORENG 25.000"]
  = Returns [].
Proof.
  apply short_receipt_no_items.
  - cbn. lia.
  - intros l Hl Hin.
    assert (H : existsb (ascii_eqb newline) (ol_text l) = true).
    { apply existsb_exists. exists newline. split; [exact Hin|].
      apply Ascii.eqb_refl. }
    revert H.
    repeat (destruct Hl as [<-|Hl]; [vm_compute; discriminate|]).
    destruct Hl.
  - intros l Hl.
    repeat (destruct Hl as [<-|Hl]; [vm_compute; reflexivity|]).
    destruct Hl.
  - vm_compute. discriminate.
  - vm_compute. discriminate.
  - vm_compute. discriminate.
Defined.

(** ** Detection order *)

(** [sorted] returns the same tokens, in non-decreasing order of their top
    coordinate. *)
Theorem sorted_by_y_sorts :
  forall l : list text_result,
    Permutation (sorted_by_y l) l
    /\ Sorted (fun a b => (top_y a <= top_y b)%Q) (sorted_by_y l).
Proof.
  intros l. split; [apply sorted_by_y_perm|].
  pose proof (sorted_by_y_sorted l) as H.
  induction H as [|a s Hs IH Hhd]; constructor; [exact IH|].
  destruct Hhd as [|b s' Hab]; constructor. now apply Qle_bool_iff.
Qed.

(** When no two tokens share a height, the order in which the OCR engine
    reports them changes neither the merchant name nor, for a given full
    text, the items. *)
Theorem detection_order_irrelevant :
  forall (l1 l2 : list text_result) (rt : receipt_type) (full_text : str),
    Permutation l1 l2 ->
    distinct_heights l1 ->
    extract_merchant_name l1 rt = extract_merchant_name l2 rt
    /\ extract_items l1 rt full_text = extract_items l2 rt full_text.
Proof.
  intros l1 l2 rt full_text Hp Hd.
  pose proof (sorted_by_y_order_free l1 l2 Hp Hd) as Hs.
  split.
  - unfold extract_merchant_name. now rewrite Hs.
  - unfold extract_items. destruct rt; try reflexivity; now rewrite Hs.
Qed.

Lemma detection_order_irrelevant_witness :
  extract_merchant_name tokens_top_down SUSHIGO
  = extract_merchant_name tokens_bottom_up SUSHIGO.
Proof.
  apply (detection_order_irrelevant tokens_top_down tokens_bottom_up SUSHIGO []).
  - apply perm_swap.
  - intros a b Ha Hb H.
    destruct Ha as [<-|[<-|[]]]; destruct Hb as [<-|[<-|[]]];
      try reflexivity; vm_compute in H; discriminate H.
Defined.

(** ** The quantity in front of a name *)

Lemma run_leading_digit_text (n : nat) (r : regex) (st st' : mstate) :
  run false (RSeq (RGroup n (plus digit)) r) st st' ->
  exists c t, ms_rest st = c :: t /\ is_digit c = true.
Proof.
  intros H.
  inversion H as [ | | | | | | r1 r2 s0 s1 s2 Hg Hr | | | | | ]; subst.
  inversion Hg as [ | | | | | | | | | | | m r' s0 s1' Hd ]; subst.
  apply run_digits in Hd as (w & Hw & _ & Hd & Hl).
  destruct w as [|c w]; [cbn in Hl; lia|].
  cbn [forallb] in Hd. apply andb_true_iff in Hd as [Hc _].
  exists c, (w ++ ms_rest s1'). split; [exact Hw | exact Hc].
Qed.

(** [extract_quantity_from_name] leaves a name that does not start with a
    digit as it is, with quantity 1; whatever the name, the quantity it
    returns is not negative. *)
Theorem extract_quantity_from_name_no_digit :
  forall item_name : str,
    (forall c t, item_name = c :: t -> is_digit c = false) ->
    extract_quantity_from_name item_name = Returns (1%Z, item_name)
    /\ forall (other : str) (q : Z) (rest : str),
         extract_quantity_from_name other = Returns (q, rest) -> (0 <= q)%Z.
Proof.
  intros item_name Hhead. split;
    [|apply (extract_quantity_from_name_every (fun q => (0 <= q)%Z));
      [lia | exact digit_string_nonneg]].
  unfold extract_quantity_from_name.
  destruct (rmatch_start quantity_prefix item_name) as [m|] eqn:E;
    [|reflexivity].
  exfalso. unfold rmatch_start, match_at in E.
  apply exec_sound in E as (st' & Hr & _).
  apply run_after_bol, run_leading_digit_text in Hr as (c & t & Hc & Hd).
  cbn [ms_rest] in Hc. rewrite (Hhead c t Hc) in Hd. discriminate.
Qed.

Lemma extract_quantity_from_name_no_digit_witness :
  extract_quantity_from_name (L "GYOZA") = Returns (1%Z, L "GYOZA").
Proof.
  apply (extract_quantity_from_name_no_digit (L "GYOZA")).
  intros c t H. injection H as <- _. reflexivity.
Defined.

(** ** Calls that can raise *)

(** Wherever the code applies [int] to group 1 of a pattern outside a
    [try], the group is a non-empty string of digits.  With at most 4300
    digits [int] returns the number they write, which is not negative; with
    more it raises [ValueError]. *)
Theorem int_of_group_outcome :
  forall (line : str) (m : rmatch),
    search qty_marker line = Some m
    \/ search chatime_item_pattern line = Some m
    \/ rmatch_start quantity_prefix line = Some m ->
    digit_string (group 1 m)
    /\ (length (group 1 m) <= max_str_digits ->
        int_call (group 1 m) = Returns (digits_value (group 1 m))
        /\ (0 <= digits_value (group 1 m))%Z)
    /\ (max_str_digits < length (group 1 m) ->
        int_call (group 1 m) = Raises ValueError).
Proof.
  intros line m H.
  assert (Hd : digit_string (group 1 m)).
  { destruct H as [H|[H|H]].
    - now apply qty_marker_group with (line := line).
    - now apply chatime_item_pattern_group with (line := line).
    - now apply quantity_prefix_group with (item_name := line). }
  split; [exact Hd|]. rewrite (int_call_digits _ Hd). split.
  - intros Hle. apply Nat.leb_le in Hle. rewrite Hle.
    split; [reflexivity|]. apply digits_value_nonneg. exact (proj1 Hd).
  - intros Hgt. apply Nat.leb_gt in Hgt. now rewrite Hgt.
Qed.

Lemma int_of_group_outcome_witness :
  exists m,
    search qty_marker (L "2 x TEH 5.000") = Some m
    /\ int_call (group 1 m) = Returns 2%Z.
Proof.
  destruct (search qty_marker (L "2 x TEH 5.000")) as [m|] eqn:E;
    [|vm_compute in E; discriminate E].
  destruct (int_of_group_outcome (L "2 x TEH 5.000") m (or_introl E))
    as (_ & Hle & _).
  exists m. split; [reflexivity|].
  vm_compute in E. injection E as <-.
  destruct Hle as [Hq _].
  - apply Nat.leb_le. vm_compute. reflexivity.
  - rewrite Hq. vm_compute. reflexivity.
Defined.

(** Every index the loop over the item section uses is a valid index of
    [sorted_text], and is at least 1, so that [sorted_text[i-1]] is the
    line above and never wraps around. *)
Theorem item_section_indices_valid :
  forall (text_results : list text_result) (i : nat),
    In i (range (header_end_idx (sorted_by_y text_results))
            (footer_start_idx (sorted_by_y text_results))) ->
    1 <= i < length text_results
    /\ exists t, nth_error (sorted_by_y text_results) i = Some t.
Proof.
  intros text_results i H.
  apply item_section_in_bounds in H.
  rewrite (Permutation_length (sorted_by_y_perm text_results)) in H.
  split; [exact H|].
  destruct (nth_error (sorted_by_y text_results) i) as [t|] eqn:E; [eauto|].
  apply nth_error_None in E.
  rewrite (Permutation_length (sorted_by_y_perm text_results)) in E. lia.
Qed.

Lemma item_section_indices_valid_witness :
  1 <= 1 < length (fst (extract_text receipt_zero_quantity)).
Proof.
  apply (item_section_indices_valid (fst (extract_text receipt_zero_quantity)) 1).
  vm_compute. left. reflexivity.
Defined.

(** ** Amounts in the totals *)

(** Whatever the text, an extracted subtotal, tax, service charge or total
    is not negative. *)
Theorem extracted_totals_nonneg :
  forall (full_text : str) (v : Q),
    subtotal (extract_totals full_text) = Some v
    \/ tax (extract_totals full_text) = Some v
    \/ service_charge (extract_totals full_text) = Some v
    \/ total (extract_totals full_text) = Some v ->
    (0 <= v)%Q.
Proof.
  intros full_text v H. unfold extract_totals in H.
  cbn [subtotal tax service_charge total] in H.
  destruct H as [H|[H|[H|H]]]; exact (extract_amount_nonneg _ _ _ H).
Qed.

Lemma extracted_totals_nonneg_witness :
  exists v, tax (extract_totals (L "PAJAK 2.000")) = Some v /\ (0 <= v)%Q.
Proof.
  destruct (tax (extract_totals (L "PAJAK 2.000"))) as [v|] eqn:E;
    [|vm_compute in E; discriminate E].
  exists v. split; [reflexivity|].
  apply (extracted_totals_nonneg (L "PAJAK 2.000") v). right. left. exact E.
Defined.

(** ** The summary *)

Lemma is_digit_not_comma (c : ascii) :
  is_digit c = true -> ascii_eqb c ","%char = false.
Proof.
  intros H. destruct (ascii_eqb c ","%char) eqn:E; [|reflexivity].
  apply Ascii.eqb_eq in E. subst c. discriminate H.
Qed.

Lemma is_digit_not_point (c : ascii) :
  is_digit c = true -> ascii_eqb c "."%char = false.
Proof.
  intros H. destruct (ascii_eqb c "."%char) eqn:E; [|reflexivity].
  apply Ascii.eqb_eq in E. subst c. discriminate H.
Qed.

(** Grouping adds commas only: removing them gives the digits back. *)
Lemma comma3_remove :
  forall (n : nat) (w : str),
    length w <= n ->
    forallb is_digit w = true ->
    Spec.remove_char ","%char (comma3 w) = w
    /\ forallb Spec.numeric_char (comma3 w) = true
    /\ Spec.occurs "."%char (comma3 w) = false.
Proof.
  assert (Hshort : forall w,
             forallb is_digit w = true -> comma3 w = w ->
             Spec.remove_char ","%char (comma3 w) = w
             /\ forallb Spec.numeric_char (comma3 w) = true
             /\ Spec.occurs "."%char (comma3 w) = false).
  { intros w Hd ->. split; [|split].
    - unfold Spec.remove_char. apply filter_all.
      apply forallb_forall. intros x Hx.
      rewrite forallb_forall in Hd.
      now rewrite (is_digit_not_comma _ (Hd x Hx)).
    - now apply digit_is_numeric.
    - unfold Spec.occurs.
      destruct (existsb _ _) eqn:E; [|reflexivity].
      apply existsb_exists in E as (x & Hx & Ex).
      apply Ascii.eqb_eq in Ex. subst x.
      rewrite forallb_forall in Hd. discriminate (Hd _ Hx). }
  induction n as [|n IH]; intros w Hlen Hd.
  - destruct w; [now apply Hshort | cbn in Hlen; lia].
  - destruct w as [|a [|b [|c [|d rest]]]];
      try (apply Hshort; [exact Hd | reflexivity]).
    cbn [forallb] in Hd.
    apply andb_true_iff in Hd as [Ha Hd].
    apply andb_true_iff in Hd as [Hb Hd].
    apply andb_true_iff in Hd as [Hc Hd].
    destruct (IH (d :: rest)) as (Hr & Hn & Hp);
      [cbn [length] in *; lia | exact Hd |].
    change (comma3 (a :: b :: c :: d :: rest))
      with (a :: b :: c :: ","%char :: comma3 (d :: rest)).
    repeat split.
    + unfold Spec.remove_char in *. cbn [filter].
      rewrite (is_digit_not_comma _ Ha), (is_digit_not_comma _ Hb),
        (is_digit_not_comma _ Hc).
      cbn [negb ascii_eqb]. rewrite Ascii.eqb_refl. cbn [negb].
      now rewrite Hr.
    + cbn [forallb]. unfold Spec.numeric_char at 1 2 3 4.
      rewrite Ha, Hb, Hc, Hn. reflexivity.
    + unfold Spec.occurs in *. cbn [existsb].
      rewrite (ascii_eqb_sym _ a), (ascii_eqb_sym _ b), (ascii_eqb_sym _ c).
      rewrite (is_digit_not_point _ Ha), (is_digit_not_point _ Hb),
        (is_digit_not_point _ Hc), Hp.
      reflexivity.
Qed.

(** The third character of a grouping, and the second, are digits. *)
Lemma comma3_no_decimal_suffix (w : str) (p q : ascii) :
  forallb is_digit w = true ->
  startswith [p; q; ","%char] (comma3 w) = false
  /\ startswith [p; ","%char] (comma3 w) = false.
Proof.
  intros Hd.
  assert (Hc : forall x, is_digit x = true -> ascii_eqb ","%char x = false).
  { intros x Hx. rewrite ascii_eqb_sym. now apply is_digit_not_comma. }
  destruct w as [|a [|b [|c [|d rest]]]]; cbn [comma3 startswith];
    cbn [forallb] in Hd;
    repeat match goal with
           | H : _ && _ = true |- _ => apply andb_true_iff in H as [? H]
           end;
    repeat match goal with
           | H : is_digit ?x = true |- _ => rewrite (Hc x H); clear H
           end;
    rewrite ?andb_false_r; auto.
Qed.

Lemma remove_char_rev (c : ascii) (w : str) :
  Spec.remove_char c (rev w) = rev (Spec.remove_char c w).
Proof.
  unfold Spec.remove_char. induction w as [|x w IH]; [reflexivity|].
  cbn [rev filter]. rewrite filter_app, IH. cbn [filter].
  destruct (negb (ascii_eqb x c)); cbn [rev]; now rewrite ?app_nil_r.
Qed.

Lemma occurs_rev (c : ascii) (w : str) :
  Spec.occurs c (rev w) = Spec.occurs c w.
Proof.
  unfold Spec.occurs. induction w as [|x w IH]; [reflexivity|].
  cbn [rev existsb]. rewrite existsb_app, IH. cbn [existsb].
  rewrite orb_false_r. apply orb_comm.
Qed.

(** The separators of a grouped whole number are read as thousands
    separators. *)
Lemma separators_group_thousands (digits : str) :
  forallb is_digit digits = true ->
  Spec.separators (group_thousands digits) = digits
  /\ forallb Spec.numeric_char (group_thousands digits) = true.
Proof.
  intros Hd. unfold group_thousands.
  assert (Hr : forallb is_digit (rev digits) = true) by now apply forallb_rev.
  destruct (comma3_remove (length (rev digits)) (rev digits) (le_n _) Hr)
    as (Hrem & Hnum & Hpt).
  destruct (comma3_no_decimal_suffix (rev digits) "0"%char "0"%char Hr)
    as (H00 & H0).
  assert (Hremove : Spec.remove_char ","%char (rev (comma3 (rev digits))) = digits)
    by (rewrite remove_char_rev, Hrem; apply rev_involutive).
  split.
  - unfold Spec.separators. rewrite occurs_rev, Hpt. cbn [andb].
    unfold endswith. rewrite rev_involutive.
    change (rev (L ",00")) with ["0"%char; "0"%char; ","%char].
    change (rev (L ",0")) with ["0"%char; ","%char].
    rewrite H00, H0. cbn [orb].
    destruct (Spec.occurs ","%char _) eqn:E; [exact Hremove|].
    rewrite <- Hremove at 2. unfold Spec.remove_char.
    symmetry. apply filter_all. apply forallb_forall. intros x Hx.
    destruct (ascii_eqb x ","%char) eqn:Ex; [|reflexivity].
    apply Ascii.eqb_eq in Ex. subst x.
    assert (Spec.occurs ","%char (rev (comma3 (rev digits))) = true).
    { unfold Spec.occurs. apply existsb_exists. exists ","%char.
      split; [exact Hx | apply Ascii.eqb_refl]. }
    congruence.
  - apply forallb_forall. intros x Hx. apply (proj2 (in_rev _ _)) in Hx.
    rewrite forallb_forall in Hnum. now apply Hnum.
Qed.

Lemma takewhile_all_id (f : ascii -> bool) (w : str) :
  forallb f w = true -> takewhile f w = w /\ dropwhile f w = [].
Proof.
  induction w as [|c w IH]; cbn [forallb takewhile dropwhile]; [auto|].
  intros H. apply andb_true_iff in H as [Hc Hw]. rewrite Hc.
  destruct (IH Hw) as [-> ->]. auto.
Qed.

Lemma round_half_even_nonneg (v : Q) : (0 <= round_half_even v)%Z.
Proof.
  unfold round_half_even.
  assert (0 <= Z.abs (Qnum v) / Zpos (Qden v))%Z
    by (apply Z.div_pos; lia).
  destruct (_ <? _)%Z; [assumption|].
  destruct (_ <? _)%Z; [lia|]. destruct (Z.even _); lia.
Qed.

(** An amount printed by the summary, when it is at least 1000 after
    rounding, is read back by the price normaliser as the rounded amount:
    the commas that [,.0f] inserts are taken for thousands separators. *)
Theorem summary_amount_reads_back :
  forall v : Q,
    (0 <= Qnum v)%Z ->
    (1000 <= round_half_even v)%Z ->
    fix_price_format (format_money v) = inject_Z (round_half_even v).
Proof.
  intros v Hpos Hbig. unfold format_money.
  destruct (Z.ltb_spec (Qnum v) 0) as [Hneg|_]; [lia|]. cbn [app].
  destruct (digits_of_spec (round_half_even v) (round_half_even_nonneg v))
    as (Hd & Hval & Hne).
  destruct (separators_group_thousands _ Hd) as (Hsep & Hnum).
  unfold fix_price_format.
  rewrite strip_non_numeric_filter, (filter_all _ _ Hnum).
  rewrite fix_separators_spec, Hsep.
  unfold py_float. destruct (takewhile_all_id is_digit _ Hd) as [-> ->].
  destruct (digits_of (round_half_even v)) eqn:E; [contradiction|].
  cbn [is_nil]. rewrite Hval.
  assert (Hc : Qltb (inject_Z (round_half_even v)) 1000 = false).
  { apply Qltb_false. unfold Qle. cbn. lia. }
  now rewrite Hc, andb_false_r.
Qed.

Lemma summary_amount_reads_back_witness :
  fix_price_format (format_money 25000) = inject_Z (round_half_even 25000).
Proof.
  apply (summary_amount_reads_back 25000).
  - cbn. lia.
  - vm_compute. discriminate.
Defined.

Lemma startswith_app (p a b : str) :
  startswith p a = true -> startswith p (a ++ b) = true.
Proof.
  revert a. induction p as [|x p IH]; intros a H; [reflexivity|].
  destruct a as [|y a]; [discriminate|]. cbn [startswith app] in *.
  apply andb_true_iff in H as [Hx Hp]. now rewrite Hx, IH.
Qed.

(** *** Quantities that [str] prints *)

Lemma fold_digits_bound (w : str) :
  forallb is_digit w = true ->
  forall acc : Z,
    (0 <= acc)%Z ->
    (fold_left (fun a c => a * 10 + digit_val c) w acc
     < (acc + 1) * 10 ^ Z.of_nat (length w))%Z.
Proof.
  induction w as [|c w IH]; intros Hall acc Hacc; cbn [fold_left length].
  - rewrite Z.pow_0_r. lia.
  - cbn [forallb] in Hall. apply andb_true_iff in Hall as [Hc Hw].
    pose proof (is_digit_val _ Hc) as Hd.
    specialize (IH Hw (acc * 10 + digit_val c)%Z ltac:(lia)).
    rewrite Nat2Z.inj_succ, Z.pow_succ_r by lia.
    assert (Hp : (0 < 10 ^ Z.of_nat (length w))%Z)
      by (apply Z.pow_pos_nonneg; lia).
    nia.
Qed.

Lemma digits_value_bound (w : str) :
  forallb is_digit w = true ->
  length w <= max_str_digits ->
  (Z.abs (digits_value w) < 10 ^ Z.of_nat max_str_digits)%Z.
Proof.
  intros Hall Hlen.
  pose proof (digits_value_nonneg _ Hall) as Hpos.
  pose proof (fold_digits_bound _ Hall 0%Z ltac:(lia)) as Hb.
  fold (digits_value w) in Hb.
  assert (Hm : (10 ^ Z.of_nat (length w) <= 10 ^ Z.of_nat max_str_digits)%Z)
    by (apply Z.pow_le_mono_r; lia).
  lia.
Qed.

Lemma forallb_filter (f : ascii -> bool) (w : str) :
  forallb f (filter f w) = true.
Proof.
  induction w as [|c w IH]; cbn [filter]; [reflexivity|].
  destruct (f c) eqn:E; [|exact IH]. cbn [forallb]. now rewrite E.
Qed.

(** Whatever [int] returns has at most 4300 digits. *)
Lemma py_int_bound (w : str) (q : Z) :
  py_int w = Some q -> (Z.abs q < 10 ^ Z.of_nat max_str_digits)%Z.
Proof.
  unfold py_int.
  assert (Hs : forall sign body v,
             (sign = 1 \/ sign = -1)%Z ->
             (if int_body false body
                 && (length (filter is_digit body) <=? max_str_digits)
              then Some (sign * digits_value (filter is_digit body))%Z
              else None) = Some v ->
             (Z.abs v < 10 ^ Z.of_nat max_str_digits)%Z).
  { intros sign body v Hsign H.
    destruct (int_body false body); [|discriminate].
    destruct (Nat.leb_spec (length (filter is_digit body)) max_str_digits)
      as [Hlen|_]; [|discriminate].
    injection H as <-.
    pose proof (digits_value_bound _ (forallb_filter is_digit body) Hlen).
    destruct Hsign as [-> | ->]; lia. }
  destruct (strip w) as [|c b]; [apply Hs; now left|].
  destruct (ascii_eqb c "-"%char); [apply Hs; now right|].
  destruct (ascii_eqb c "+"%char); apply Hs; now left.
Qed.

Lemma chatime_x_item_bound (lines : list str) (il : nat * str) (it : item) :
  chatime_x_item lines il = Some it ->
  (Z.abs (quantity it) < 10 ^ Z.of_nat max_str_digits)%Z.
Proof.
  unfold chatime_x_item. intros H. destruct il as [i line].
  destruct (has "x" (lower line) && _); [|discriminate].
  destruct (Qltb 0 _); [|discriminate].
  destruct (split_once "x"%char line) as [|part0 [|part1 [|? ?]]];
    try discriminate.
  destruct (py_int (strip part0)) as [q|] eqn:E; [|discriminate].
  injection H as <-. cbn [quantity]. exact (py_int_bound _ _ E).
Qed.

Lemma one_bound : (Z.abs 1 < 10 ^ Z.of_nat max_str_digits)%Z.
Proof.
  change (Z.abs 1) with 1%Z. apply Z.pow_gt_1; [lia|]. reflexivity.
Qed.

Lemma digit_string_bound (w : str) :
  digit_string w -> length w <= max_str_digits ->
  (Z.abs (digits_value w) < 10 ^ Z.of_nat max_str_digits)%Z.
Proof. intros [H _]. now apply digits_value_bound. Qed.

(** Every quantity the extraction stores is one [str] prints. *)
Lemma extract_items_bound (text_results : list text_result) (rt : receipt_type)
    (full_text : str) (items : list item) (it : item) :
  extract_items text_results rt full_text = Returns items ->
  In it items ->
  (Z.abs (quantity it) < 10 ^ Z.of_nat max_str_digits)%Z.
Proof.
  apply (extract_items_every
           (fun it => (Z.abs (quantity it) < 10 ^ Z.of_nat max_str_digits)%Z)).
  - apply (chatime_pattern_item_quantity
             (fun q => (Z.abs q < 10 ^ Z.of_nat max_str_digits)%Z)).
    exact digit_string_bound.
  - exact chatime_x_item_bound.
  - apply (alternative_item_quantity
             (fun q => (Z.abs q < 10 ^ Z.of_nat max_str_digits)%Z));
      [exact one_bound | exact digit_string_bound].
  - apply (sushigo_item_quantity
             (fun q => (Z.abs q < 10 ^ Z.of_nat max_str_digits)%Z));
      [exact one_bound | exact digit_string_bound].
  - apply (gomachi_item_quantity
             (fun q => (Z.abs q < 10 ^ Z.of_nat max_str_digits)%Z));
      [exact one_bound | exact digit_string_bound].
  - apply (section_item_quantity
             (fun q => (Z.abs q < 10 ^ Z.of_nat max_str_digits)%Z));
      [exact one_bound | exact digit_string_bound].
Qed.

Lemma traverse_item_line (items : list item) :
  (forall it, In it items ->
              (Z.abs (quantity it) < 10 ^ Z.of_nat max_str_digits)%Z) ->
  exists item_lines, traverse item_line items = Returns item_lines.
Proof.
  induction items as [|it items IH]; intros H; cbn [traverse].
  - now exists [].
  - destruct IH as [ls ->]; [intros it' Hin; apply H; now right|].
    unfold item_line at 1, str_of_int.
    specialize (H it (or_introl eq_refl)). apply Z.ltb_lt in H.
    rewrite H. cbn [bind]. eauto.
Qed.

(** The summary of a receipt opens with the banner and the merchant. *)
Lemma generate_summary_banner (r : receipt) (text : str) :
  generate_summary (Success r) = Returns text ->
  startswith (L "=== RECEIPT SUMMARY ===" ++ [newline] ++ L "Merchant: ")
    text = true.
Proof.
  unfold generate_summary. intros H.
  apply bind_returns in H as (item_lines & _ & H).
  apply Returns_inj in H. rewrite <- H. clear H.
  match goal with
  | |- context [join _ ([?a; ?b] ++ ?rest)] =>
      change ([a; b] ++ rest) with (a :: b :: rest);
      change (join [newline] (a :: b :: rest))
        with (a ++ [newline] ++ join [newline] (b :: rest));
      destruct rest
  end.
  - reflexivity.
  - cbn [join]. rewrite !app_assoc. apply startswith_app.
    rewrite <- !app_assoc. reflexivity.
Qed.

Lemma generate_summary_returns (sd st : str -> str) (ocr : list ocr_line)
    (res : result) :
  process_receipt sd st ocr = Returns res ->
  exists text, generate_summary res = Returns text.
Proof.
  intros H. destruct res as [e|r]; [cbn; eauto|].
  destruct (process_receipt_success _ _ _ _ H) as (_ & Hitems & _).
  unfold generate_summary.
  destruct (is_nil (r_items r)); [cbn [bind]; eauto|].
  destruct (traverse_item_line (r_items r)) as [ls ->]; [|cbn [bind]; eauto].
  intros it. exact (extract_items_bound _ _ _ _ _ Hitems).
Qed.

(** Whenever [process_receipt] returns, [generate_summary] returns a text
    for its result: the error message when the OCR engine returned
    nothing, and otherwise a text that opens with the summary banner. *)
Theorem summary_of_processed_receipt :
  forall (sd st : str -> str) (ocr : list ocr_line) (res : result),
    process_receipt sd st ocr = Returns res ->
    exists text,
      generate_summary res = Returns text
      /\ (ocr = [] -> text = L "Error: No text detected in the image")
      /\ (ocr <> [] ->
          startswith
            (L "=== RECEIPT SUMMARY ===" ++ [newline] ++ L "Merchant: ")
            text = true).
Proof.
  intros sd st ocr res H.
  destruct (generate_summary_returns _ _ _ _ H) as [text Ht].
  exists text. split; [exact Ht|]. split.
  - intros ->. injection H as <-. now injection Ht.
  - intros Hne.
    destruct (process_receipt_nonempty _ _ _ _ Hne H) as (r & -> & _).
    exact (generate_summary_banner _ _ Ht).
Qed.

Lemma summary_of_processed_receipt_witness :
  exists res text,
    process_receipt unparsed unparsed receipt_without_total_line = Returns res
    /\ generate_summary res = Returns text
    /\ startswith (L "=== RECEIPT SUMMARY ===" ++ [newline] ++ L "Merchant: ")
         text = true.
Proof.
  destruct (process_receipt unparsed unparsed receipt_without_total_line)
    as [res|e] eqn:E; [|vm_compute in E; discriminate E].
  destruct (summary_of_processed_receipt unparsed unparsed
              receipt_without_total_line res E) as (text & Ht & _ & Hb).
  exists res, text. split; [reflexivity|]. split; [exact Ht|].
  apply Hb. unfold receipt_without_total_line. discriminate.
Defined.

(** ** Scans that require a price *)

(** The CHATIME fallback and the GOMACHI scan keep a line only when the
    price found for it is strictly positive. *)
Theorem scan_items_have_positive_price :
  forall (lines : list str) (il : nat * str) (it : item),
    chatime_x_item lines il = Some it
    \/ gomachi_item lines il = Returns (Some it) ->
    (0 < price it)%Q.
Proof.
  intros lines [i line] it [H|H].
  - unfold chatime_x_item in H.
    destruct (has "x" (lower line) && _); [|discriminate].
    destruct (Qltb 0 _) eqn:Hp; [|discriminate].
    apply Qltb_lt in Hp. body_cases H; exact Hp.
  - unfold gomachi_item in H.
    destruct (has "BUTADON" line || _ || _); [|discriminate].
    destruct (Qltb 0 _ && _) eqn:Hp; [|discriminate].
    apply andb_true_iff in Hp as [Hp _].
    apply Qltb_lt in Hp. body_cases H; exact Hp.
Qed.

Lemma scan_items_have_positive_price_witness :
  exists it,
    gomachi_item [L "2 GYOZA 25.000"] (0, L "2 GYOZA 25.000")
    = Returns (Some it)
    /\ (0 < price it)%Q.
Proof.
  destruct (gomachi_item [L "2 GYOZA 25.000"] (0, L "2 GYOZA 25.000"))
    as [[it|]|e] eqn:E; try (vm_compute in E; discriminate E).
  exists it. split; [reflexivity|].
  apply (scan_items_have_positive_price
           [L "2 GYOZA 25.000"] (0, L "2 GYOZA 25.000") it).
  right. exact E.
Defined.

(** ** Lines with a totals keyword *)

Lemma footer_keyword_is_non_item (k : str) :
  In k footer_keywords -> In k non_item_keywords.
Proof.
  unfold footer_keywords. cbn [map In].
  intros [<-|[<-|[<-|[<-|[<-|[]]]]]];
    unfold non_item_keywords; cbn [map];
    repeat (first [left; reflexivity | right]).
Qed.

(** A text that contains one of the keywords [subtotal], [sub total],
    [total], [pajak] or [tax], in any letter case, is never a valid item
    name. *)
Theorem totals_line_is_no_item_name :
  forall txt : str,
    contains_any footer_keywords (lower txt) = true ->
    is_valid_item_name txt = false.
Proof.
  intros txt H. unfold contains_any in H.
  apply existsb_exists in H as (k & Hk & Hc).
  assert (Hkw : existsb (fun k => contains k (lower txt)) non_item_keywords = true).
  { apply existsb_exists. exists k. split; [|exact Hc].
    now apply footer_keyword_is_non_item. }
  unfold is_valid_item_name.
  destruct (length txt <? 2); [reflexivity|].
  destruct (is_some (rmatch_start only_numbers txt)); [reflexivity|].
  destruct (is_some (search rupiah_amount txt)); [reflexivity|].
  cbv zeta.
  destruct (existsb _ non_item_patterns); [reflexivity|].
  now rewrite Hkw.
Qed.

Lemma totals_line_is_no_item_name_witness :
  is_valid_item_name (L "Grand TOTAL") = false.
Proof.
  apply (totals_line_is_no_item_name (L "Grand TOTAL")).
  vm_compute. reflexivity.
Defined.

(** ** A line that names the merchant *)

Lemma startswith_lower (p w : str) :
  startswith p w = true -> startswith (lower p) (lower w) = true.
Proof.
  revert w. induction p as [|x p IH]; intros w H; [reflexivity|].
  destruct w as [|y w]; [discriminate|]. cbn [startswith lower map] in *.
  apply andb_true_iff in H as [Hx Hp].
  apply Ascii.eqb_eq in Hx. subst y.
  unfold ascii_eqb. rewrite Ascii.eqb_refl. now apply IH.
Qed.

Lemma contains_lower (k w : str) :
  contains k w = true -> contains (lower k) (lower w) = true.
Proof.
  induction w as [|y w IH]; cbn [contains]; intros H.
  - rewrite orb_false_r in H. apply (startswith_lower k []) in H.
    cbn [lower map contains] in *. now rewrite H.
  - apply orb_true_iff in H as [H|H].
    + apply (startswith_lower k (y :: w)) in H.
      change (lower (y :: w)) with (lower_char y :: lower w) in *.
      cbn [contains]. now rewrite H.
    + change (lower (y :: w)) with (lower_char y :: lower w).
      cbn [contains]. rewrite (IH H). apply orb_true_r.
Qed.

Lemma contains_app_l (k a b : str) :
  contains k a = true -> contains k (a ++ b) = true.
Proof.
  induction a as [|y a IH]; cbn [contains app]; intros H.
  - rewrite orb_false_r in H.
    destruct k; [now destruct b | discriminate].
  - apply orb_true_iff in H as [H|H].
    + apply (startswith_app k (y :: a) b) in H. cbn [app] in H.
      now rewrite H.
    + rewrite (IH H). apply orb_true_r.
Qed.

Lemma contains_app_r (k a b : str) :
  contains k b = true -> contains k (a ++ b) = true.
Proof.
  intros H. induction a as [|y a IH]; [exact H|].
  cbn [app contains]. rewrite IH. apply orb_true_r.
Qed.

Lemma contains_join (k sep : str) (parts : list str) (p : str) :
  In p parts -> contains k p = true -> contains k (join sep parts) = true.
Proof.
  induction parts as [|q parts IH]; intros Hin Hc; [destruct Hin|].
  destruct parts as [|q' parts].
  - destruct Hin as [->|[]]. exact Hc.
  - change (join sep (q :: q' :: parts))
      with (q ++ sep ++ join sep (q' :: parts)).
    destruct Hin as [->|Hin].
    + now apply contains_app_l.
    + apply contains_app_r, contains_app_r. now apply IH.
Qed.

Lemma firstn_incl {T : Type} (n : nat) (l : list T) (x : T) :
  In x (firstn n l) -> In x l.
Proof.
  revert l. induction n as [|n IH]; intros [|y l] H; cbn [firstn] in H;
    try destruct H as [->|H]; try (now left); try contradiction.
  right. now apply IH.
Qed.

(** When one of the first five lines from the top contains ["Gomachi"],
    ["GOMACHI"] or ["Gemachi"], the text is classified GOMACHI and the
    merchant name extracted for it is ["Gomachi"]: the case-sensitive test
    on the lines implies the lower-case test on the full text.  Whatever
    [process_receipt] returns for such a receipt is a success dictionary
    with that type and that name. *)
Theorem gomachi_line_classifies_and_names :
  forall (sd st : str -> str) (ocr : list ocr_line) (t : text_result),
    In t (firstn 5 (sorted_by_y (fst (extract_text ocr)))) ->
    Spec.names_merchant GOMACHI t = true ->
    identify_receipt_type (snd (extract_text ocr)) = GOMACHI
    /\ extract_merchant_name (fst (extract_text ocr)) GOMACHI = L "Gomachi"
    /\ forall res : result,
         process_receipt sd st ocr = Returns res ->
         exists r,
           res = Success r
           /\ r_receipt_type r = GOMACHI
           /\ r_merchant_name r = L "Gomachi".
Proof.
  intros sd st ocr t Htop Hname.
  assert (Hin : In t (fst (extract_text ocr))).
  { apply firstn_incl in Htop.
    exact (Permutation_in _ (sorted_by_y_perm _) Htop). }
  assert (Htype : identify_receipt_type (snd (extract_text ocr)) = GOMACHI).
  { unfold extract_text in *. cbn [fst snd] in *.
    apply in_map_iff in Hin as (l & <- & Hl).
    unfold Spec.names_merchant, contains_any, Spec.aliases in Hname.
    cbn [text map existsb] in Hname. rewrite orb_false_r in Hname.
    assert (Hjoin : forall k,
               contains k (ol_text l) = true ->
               contains (lower k) (lower (join [newline] (map ol_text ocr))) = true).
    { intros k Hk. apply contains_lower.
      apply contains_join with (p := ol_text l); [|exact Hk].
      apply in_map_iff. eauto. }
    unfold identify_receipt_type, has.
    apply orb_true_iff in Hname as [Hk|Hname];
      [|apply orb_true_iff in Hname as [Hk|Hk]];
      apply Hjoin in Hk; change (lower (L "Gomachi")) with (L "gomachi") in Hk;
      change (lower (L "GOMACHI")) with (L "gomachi") in Hk;
      change (lower (L "Gemachi")) with (L "gemachi") in Hk;
      rewrite Hk, ?orb_true_r; reflexivity. }
  assert (Hmerchant :
            extract_merchant_name (fst (extract_text ocr)) GOMACHI = L "Gomachi").
  { unfold extract_merchant_name.
    rewrite merchant_loop_find. cbn [skipn]. rewrite firstn_min_length.
    destruct (List.find _ _) as [t'|] eqn:Ef; [reflexivity|].
    pose proof (find_none _ _ Ef t Htop) as Hnone. congruence. }
  split; [exact Htype|]. split; [exact Hmerchant|].
  intros res. unfold process_receipt.
  destruct (extract_text ocr) as [text_results full_text] eqn:E.
  cbn [fst snd] in *.
  destruct text_results as [|t0 text_results]; [destruct Hin|].
  cbn [is_nil]. destruct (extract_date_time sd st full_text) as [d tm].
  intros H. apply bind_returns in H as (items & _ & H). injection H as <-.
  eexists. split; [reflexivity|]. cbn [r_receipt_type r_merchant_name].
  split; [exact Htype|]. rewrite Htype. exact Hmerchant.
Qed.

Lemma gomachi_line_classifies_and_names_witness :
  exists r,
    process_receipt unparsed unparsed
      [token 0 "GOMACHI RESTO"; token 10 "2 GYOZA 25.000"]
    = Returns (Success r)
    /\ r_receipt_type r = GOMACHI
    /\ r_merchant_name r = L "Gomachi".
Proof.
  destruct (process_receipt unparsed unparsed
              [token 0 "GOMACHI RESTO"; token 10 "2 GYOZA 25.000"])
    as [res|e] eqn:E; [|vm_compute in E; discriminate E].
  destruct (gomachi_line_classifies_and_names unparsed unparsed
              [token 0 "GOMACHI RESTO"; token 10 "2 GYOZA 25.000"]
              (TextResult (L "GOMACHI RESTO")
                 (ol_position (token 0 "GOMACHI RESTO")) 1%Q))
    as (_ & _ & H).
  - vm_compute. left. reflexivity.
  - vm_compute. reflexivity.
  - destruct (H res E) as (r & -> & Ht & Hm). exists r. auto.
Defined.

(** ** Texts without long runs of digits *)

Lemma segment_refl (s : str) : segment s s.
Proof. exists [], []. now rewrite app_nil_r. Qed.

Lemma segment_trans (a b c : str) : segment a b -> segment b c -> segment a c.
Proof.
  intros (x & y & ->) (x' & y' & ->).
  exists (x' ++ x), (y ++ y'). now rewrite !app_assoc.
Qed.

Lemma segment_length (w s : str) : segment w s -> length w <= length s.
Proof. intros (a & b & ->). rewrite !length_app. lia. Qed.

Lemma segment_cons (w s : str) (c : ascii) : segment w s -> segment w (c :: s).
Proof. intros (a & b & ->). now exists (c :: a), b. Qed.

Lemma short_digit_runs_segment (s' s : str) :
  segment s' s -> short_digit_runs s -> short_digit_runs s'.
Proof.
  intros Hs H w Hw Hseg. apply H; [exact Hw|]. now apply segment_trans with s'.
Qed.

Lemma firstn_segment (n : nat) (s : str) : segment (firstn n s) s.
Proof. exists [], (skipn n s). cbn [app]. now rewrite firstn_skipn. Qed.

Lemma dropwhile_segment (f : ascii -> bool) (s : str) : segment (dropwhile f s) s.
Proof.
  induction s as [|c s IH]; cbn [dropwhile]; [apply segment_refl|].
  destruct (f c); [now apply segment_cons | apply segment_refl].
Qed.

Lemma segment_rev (w s : str) : segment w s -> segment (rev w) (rev s).
Proof.
  intros (a & b & ->). exists (rev b), (rev a).
  now rewrite !rev_app_distr, app_assoc.
Qed.

Lemma strip_segment (s : str) : segment (strip s) s.
Proof.
  unfold strip, rstrip, lstrip.
  apply segment_trans with (dropwhile is_space s); [|apply dropwhile_segment].
  rewrite <- (rev_involutive (dropwhile is_space s)) at 2.
  apply segment_rev, dropwhile_segment.
Qed.

Lemma slice_to_segment (k : Z) (s : str) : segment (slice_to k s) s.
Proof. unfold slice_to. destruct (k <? 0)%Z; apply firstn_segment. Qed.

Lemma split_on_head_prefix (sep : ascii) (s : str) :
  forall p ps, split_on sep s = p :: ps -> exists b, s = p ++ b.
Proof.
  induction s as [|c s IH]; intros p ps E; cbn [split_on] in E.
  - injection E as <- _. now exists [].
  - destruct (ascii_eqb c sep).
    + injection E as <- _. now exists (c :: s).
    + destruct (split_on sep s) as [|q qs] eqn:Eq.
      * injection E as <- _. now exists s.
      * injection E as <- _. destruct (IH q qs eq_refl) as [b ->].
        now exists b.
Qed.

Lemma split_on_segment (sep : ascii) (s : str) :
  forall line, In line (split_on sep s) -> segment line s.
Proof.
  induction s as [|c s IH]; intros line H; cbn [split_on] in H.
  - destruct H as [<-|[]]. apply segment_refl.
  - destruct (ascii_eqb c sep).
    + destruct H as [<-|H]; [now exists [], (c :: s)|].
      now apply segment_cons, IH.
    + destruct (split_on sep s) as [|p ps] eqn:E.
      * destruct H as [<-|[]]. now exists [], s.
      * destruct H as [<-|H].
        -- destruct (split_on_head_prefix _ _ _ _ E) as [b ->].
           now exists [], b.
        -- apply segment_cons, IH. now right.
Qed.

Lemma segment_app_sep (w a b : str) (c : ascii) :
  segment w (a ++ c :: b) -> ~ In c w -> segment w a \/ segment w b.
Proof.
  intros (x & y & E) Hc. symmetry in E.
  apply app_eq_app in E as [l [[-> E]|[-> E]]].
  - destruct l as [|c' l]; cbn [app] in E.
    + destruct w as [|c' w]; [left; now exists [], a|].
      injection E as -> _. exfalso. apply Hc. now left.
    + injection E as _ ->. right. now exists l, y.
  - apply app_eq_app in E as [l2 [[-> E]|[-> E]]].
    + destruct l2 as [|c' l2]; cbn [app] in E.
      * left. exists x, []. now rewrite !app_nil_r.
      * injection E as -> _. exfalso. apply Hc.
        apply in_or_app. right. now left.
    + left. now exists x, l2.
Qed.

Lemma digit_string_no_newline (w : str) : digit_string w -> ~ In newline w.
Proof.
  intros [H _] Hin. rewrite forallb_forall in H.
  specialize (H _ Hin). discriminate H.
Qed.

Lemma short_digit_runs_join (parts : list str) :
  (forall p, In p parts -> short_digit_runs p) ->
  short_digit_runs (join [newline] parts).
Proof.
  induction parts as [|p ps IH]; intros H w Hw Hseg.
  - destruct Hseg as (a & b & E). destruct Hw as [_ Hne].
    destruct a; [destruct w; [contradiction | discriminate E]|discriminate E].
  - destruct ps as [|q ps].
    + exact (H p (or_introl eq_refl) w Hw Hseg).
    + change (join [newline] (p :: q :: ps))
        with (p ++ newline :: join [newline] (q :: ps)) in Hseg.
      apply segment_app_sep in Hseg as [Hseg|Hseg];
        [| |now apply digit_string_no_newline].
      * exact (H p (or_introl eq_refl) w Hw Hseg).
      * apply IH; [|exact Hw | exact Hseg].
        intros p' Hp'. apply H. now right.
Qed.

(** *** The captured digits are part of the text searched *)

Lemma search_from_suffix (ic : bool) (r : regex) :
  forall rest pos m,
    search_from ic r pos rest = Some m ->
    exists pos' rest' st',
      segment rest' rest
      /\ run ic r (MState pos' rest' []) st' /\ m_groups m = ms_caps st'.
Proof.
  induction rest as [|c rest IH]; intros pos m H; cbn [search_from] in H;
    destruct (match_at ic r pos _) as [m'|] eqn:E;
    try discriminate;
    try (injection H as ->; unfold match_at in E;
         apply exec_sound in E as (st' & Hr & Hk);
         injection Hk as <-;
         eexists; eexists; eexists; split; [apply segment_refl|]; eauto).
  apply IH in H as (pos' & rest' & st' & Hs & Hr & Hg).
  exists pos', rest', st'. split; [now apply segment_cons | auto].
Qed.

Lemma run_leading_digit_segment (n : nat) (r : regex) (st st' : mstate) :
  run false (RSeq (RGroup n (plus digit)) r) st st' ->
  no_group n r = true ->
  exists w, get_cap n (ms_caps st') = Some w /\ segment w (ms_rest st).
Proof.
  intros H Hn.
  inversion H as [ | | | | | | r1 r2 s0 s1 s2 Hg Hr | | | | | ]; subst.
  rewrite (run_keeps_cap _ _ _ _ _ Hr Hn).
  inversion Hg as [ | | | | | | | | | | | m r' s0 s1' Hd ]; subst.
  cbn [ms_caps]. rewrite get_cap_set_cap_same.
  apply run_digits in Hd as (w & Hw & Hp & Hd & Hl).
  exists w. rewrite Hw, Hp.
  replace (ms_pos st + length w - ms_pos st) with (length w) by lia.
  rewrite firstn_app, Nat.sub_diag, firstn_all. cbn [firstn].
  rewrite app_nil_r. split; [reflexivity|]. now exists [], (ms_rest s1').
Qed.

Lemma qty_marker_segment (line : str) (m : rmatch) :
  search qty_marker line = Some m -> segment (group 1 m) line.
Proof.
  intros H. apply search_from_suffix in H as (pos & rest & st' & Hs & Hr & Hg).
  apply run_leading_digit_segment in Hr as (w & Hw & Hseg); [|reflexivity].
  rewrite <- Hg in Hw. rewrite (group_of_caps _ _ _ Hw).
  now apply segment_trans with rest.
Qed.

Lemma chatime_item_pattern_segment (line : str) (m : rmatch) :
  search chatime_item_pattern line = Some m -> segment (group 1 m) line.
Proof.
  intros H. apply search_from_suffix in H as (pos & rest & st' & Hs & Hr & Hg).
  apply run_leading_digit_segment in Hr as (w & Hw & Hseg); [|reflexivity].
  rewrite <- Hg in Hw. rewrite (group_of_caps _ _ _ Hw).
  now apply segment_trans with rest.
Qed.

Lemma quantity_prefix_segment (item_name : str) (m : rmatch) :
  rmatch_start quantity_prefix item_name = Some m ->
  segment (group 1 m) item_name.
Proof.
  unfold rmatch_start, match_at. intros H.
  apply exec_sound in H as (st' & Hr & Hk). injection Hk as <-.
  apply run_after_bol in Hr.
  apply run_leading_digit_segment in Hr as (w & Hw & Hseg); [|reflexivity].
  unfold group. cbn [m_groups]. now rewrite Hw.
Qed.

(** *** Every call of [int] returns *)

Lemma int_call_returns (w s : str) :
  digit_string w -> segment w s -> short_digit_runs s ->
  exists q, int_call w = Returns q.
Proof.
  intros Hw Hseg Hs. rewrite (int_call_digits _ Hw).
  specialize (Hs w Hw Hseg). apply Nat.leb_le in Hs. rewrite Hs. eauto.
Qed.

Lemma marker_quantity_returns (line : str) :
  short_digit_runs line -> exists q, marker_quantity line = Returns q.
Proof.
  intros Hs. unfold marker_quantity.
  destruct (search qty_marker line) as [m|] eqn:E; [|eauto].
  exact (int_call_returns _ _ (qty_marker_group _ _ E)
           (qty_marker_segment _ _ E) Hs).
Qed.

Lemma extract_quantity_from_name_returns (item_name : str) :
  short_digit_runs item_name ->
  exists qr, extract_quantity_from_name item_name = Returns qr.
Proof.
  intros Hs. unfold extract_quantity_from_name.
  destruct (rmatch_start quantity_prefix item_name) as [m|] eqn:E; [|eauto].
  destruct (int_call_returns _ _ (quantity_prefix_group _ _ E)
              (quantity_prefix_segment _ _ E) Hs) as [q ->].
  cbn [bind]. eauto.
Qed.

Lemma marker_or_prefix_quantity_returns (line : str) :
  short_digit_runs line ->
  exists qr, marker_or_prefix_quantity line = Returns qr.
Proof.
  intros Hs. unfold marker_or_prefix_quantity.
  destruct (search qty_marker line) as [m|] eqn:E.
  - destruct (int_call_returns _ _ (qty_marker_group _ _ E)
                (qty_marker_segment _ _ E) Hs) as [q ->].
    cbn [bind]. eauto.
  - destruct (extract_quantity_from_name_returns (strip line)) as [[q cleaned] ->].
    + exact (short_digit_runs_segment _ _ (strip_segment line) Hs).
    + cbn [bind]. eauto.
Qed.

Lemma name_before_price_short (k : Z) (line : str) :
  short_digit_runs line -> short_digit_runs (strip (slice_to k line)).
Proof.
  apply short_digit_runs_segment.
  apply segment_trans with (slice_to k line);
    [apply strip_segment | apply slice_to_segment].
Qed.

Lemma section_item_returns (sorted_text : list text_result) (i : nat) :
  (forall t, In t sorted_text -> short_digit_runs (text t)) ->
  1 <= i < length sorted_text ->
  exists o, section_item sorted_text i = Returns o.
Proof.
  intros Hall Hi. unfold section_item.
  destruct (nth_error sorted_text i) as [t|] eqn:E;
    [|apply nth_error_None in E; lia].
  assert (Ht : short_digit_runs (text t))
    by (apply Hall; eapply nth_error_In; eauto).
  destruct (search price_pattern (text t)) as [pm|]; [|eauto].
  cbv zeta.
  match goal with
  | |- context [bind ?c _] =>
      assert (Hname : exists item_name,
                 c = Returns item_name /\ short_digit_runs item_name)
  end.
  { destruct (is_nil _ && (0 <? i)).
    - destruct (nth_error sorted_text (i - 1)) as [prev|] eqn:Ep;
        [|apply nth_error_None in Ep; lia].
      eexists. split; [reflexivity|].
      destruct (negb _ && negb _).
      + apply Hall. eapply nth_error_In; eauto.
      + now apply name_before_price_short.
    - eexists. split; [reflexivity|]. now apply name_before_price_short. }
  destruct Hname as (item_name & -> & Hshort). cbn [bind].
  destruct (marker_quantity_returns _ Ht) as [q ->]. cbn [bind].
  destruct (negb _ && _); [|eauto].
  destruct (is_valid_item_name item_name); [|eauto].
  destruct (extract_quantity_from_name_returns _ Hshort) as [[nq cleaned] ->].
  cbn [bind]. eauto.
Qed.

Section ShortLines.

Variable lines : list str.
Hypothesis lines_short : forall line, In line lines -> short_digit_runs line.

Lemma alternative_item_returns (il : nat * str) :
  In il (enumerate lines) -> exists o, alternative_item lines il = Returns o.
Proof.
  destruct il as [i line]. intros H.
  pose proof (enumerate_index _ _ _ H) as Hi.
  apply enumerate_In in H. pose proof (lines_short _ H) as Hl.
  unfold alternative_item.
  destruct (i <? 3); [eauto|].
  destruct (contains_any footer_keywords (lower line)); [eauto|].
  destruct (search price_pattern line) as [pm|]; [|eauto].
  cbv zeta.
  match goal with
  | |- context [bind ?c _] =>
      assert (Hname : exists item_name,
                 c = Returns item_name /\ short_digit_runs item_name)
  end.
  { destruct (is_nil _ && (0 <? i)).
    - destruct (nth_error lines (i - 1)) as [prev|] eqn:Ep;
        [|apply nth_error_None in Ep; lia].
      eexists. split; [reflexivity|].
      destruct (is_valid_item_name prev).
      + apply lines_short. eapply nth_error_In; eauto.
      + now apply name_before_price_short.
    - eexists. split; [reflexivity|]. now apply name_before_price_short. }
  destruct Hname as (item_name & -> & Hshort). cbn [bind].
  destruct (marker_quantity_returns _ Hl) as [q ->]. cbn [bind].
  destruct (is_valid_item_name item_name); [|eauto].
  destruct (extract_quantity_from_name_returns _ Hshort) as [[nq cleaned] ->].
  cbn [bind]. eauto.
Qed.

Lemma sushigo_item_returns (il : nat * str) :
  In il (enumerate lines) -> exists o, sushigo_item il = Returns o.
Proof.
  destruct il as [i line]. intros H.
  apply enumerate_In in H. pose proof (lines_short _ H) as Hl.
  unfold sushigo_item.
  destruct (has "PIRING" line || _); [|eauto].
  destruct (search price_pattern line) as [pm|]; [|eauto].
  destruct (marker_or_prefix_quantity_returns _ Hl) as [[q line'] ->].
  cbn [bind]. eauto.
Qed.

Lemma gomachi_item_returns (il : nat * str) :
  In il (enumerate lines) -> exists o, gomachi_item lines il = Returns o.
Proof.
  destruct il as [i line]. intros H.
  apply enumerate_In in H. pose proof (lines_short _ H) as Hl.
  unfold gomachi_item.
  destruct (has "BUTADON" line || _ || _); [|eauto].
  destruct (Qltb 0 _ && _); [|eauto].
  destruct (marker_or_prefix_quantity_returns _ Hl) as [[q line'] ->].
  cbn [bind]. eauto.
Qed.

Lemma chatime_pattern_item_returns (il : nat * str) :
  In il (enumerate lines) -> exists o, chatime_pattern_item lines il = Returns o.
Proof.
  destruct il as [i line]. intros H.
  apply enumerate_In in H. pose proof (lines_short _ H) as Hl.
  unfold chatime_pattern_item.
  destruct (search chatime_item_pattern line) as [m|] eqn:E; [|eauto].
  destruct (int_call_returns _ _ (chatime_item_pattern_group _ _ E)
              (chatime_item_pattern_segment _ _ E) Hl) as [q ->].
  cbn [bind]. eauto.
Qed.

End ShortLines.

Lemma collect_returns {T : Type} (body : T -> outcome (option item))
    (rounds : list T) :
  (forall x, In x rounds -> exists o, body x = Returns o) ->
  exists items, collect body rounds = Returns items.
Proof.
  induction rounds as [|x rounds IH]; intros H; cbn [collect]; [eauto|].
  destruct (H x (or_introl eq_refl)) as [o ->]. cbn [bind].
  destruct IH as [items ->]; [intros y Hy; apply H; now right|].
  cbn [bind]. eauto.
Qed.

Lemma extract_items_returns (text_results : list text_result)
    (rt : receipt_type) (full_text : str) :
  (forall t, In t text_results -> short_digit_runs (text t)) ->
  short_digit_runs full_text ->
  exists items, extract_items text_results rt full_text = Returns items.
Proof.
  intros Htok Htext.
  assert (Hlines : forall line,
             In line (split_on newline full_text) -> short_digit_runs line).
  { intros line Hl.
    exact (short_digit_runs_segment _ _ (split_on_segment _ _ _ Hl) Htext). }
  assert (Halt : forall rt',
             exists items, extract_items_alternative full_text rt' = Returns items).
  { intros rt'. unfold extract_items_alternative. cbv zeta.
    destruct (collect_returns (alternative_item (split_on newline full_text))
                (enumerate (split_on newline full_text))) as [first ->].
    { intros il Hil. now apply alternative_item_returns. }
    cbn [bind].
    destruct rt'; eauto; (destruct (is_nil first); [|eauto]);
      apply collect_returns; intros il Hil.
    - now apply gomachi_item_returns.
    - now apply sushigo_item_returns with (lines := split_on newline full_text). }
  assert (Hgen :
            exists items,
              (let sorted_text := sorted_by_y text_results in
               items <-
                 collect (section_item sorted_text)
                   (range (header_end_idx sorted_text)
                      (footer_start_idx sorted_text)) ;;
               if is_nil items then extract_items_alternative full_text rt
               else Returns items) = Returns items).
  { cbv zeta.
    destruct (collect_returns (section_item (sorted_by_y text_results))
                (range (header_end_idx (sorted_by_y text_results))
                   (footer_start_idx (sorted_by_y text_results))))
      as [first ->].
    { intros i Hi. apply section_item_returns.
      - intros t Ht. apply Htok.
        exact (Permutation_in _ (sorted_by_y_perm text_results) Ht).
      - now apply item_section_in_bounds. }
    cbn [bind]. destruct (is_nil first); [apply Halt | eauto]. }
  unfold extract_items. destruct rt; try exact Hgen.
  unfold extract_items_from_chatime_receipt. cbv zeta.
  destruct (collect_returns (chatime_pattern_item (split_on newline full_text))
              (enumerate (split_on newline full_text))) as [first ->].
  { intros il Hil. now apply chatime_pattern_item_returns. }
  cbn [bind]. destruct (is_nil first); [|eauto].
  apply collect_returns. eauto.
Qed.

(** On a non-empty stream none of whose texts holds more than 4300
    consecutive digits, [process_receipt] returns the success dictionary,
    and the total in it is not negative. *)
Theorem process_receipt_short_digit_runs :
  forall (sd st : str -> str) (ocr : list ocr_line),
    ocr <> [] ->
    (forall l, In l ocr -> short_digit_runs (ol_text l)) ->
    exists r,
      process_receipt sd st ocr = Returns (Success r) /\ (0 <= r_total r)%Q.
Proof.
  intros sd st ocr Hne Hshort.
  assert (Hret : exists res, process_receipt sd st ocr = Returns res).
  { unfold process_receipt.
    destruct (extract_text ocr) as [text_results full_text] eqn:E.
    destruct (is_nil text_results); [eauto|].
    destruct (extract_date_time sd st full_text) as [d tm].
    destruct (extract_items_returns text_results
                (identify_receipt_type full_text) full_text) as [items ->].
    - unfold extract_text in E. injection E as <- _.
      intros t Ht. apply in_map_iff in Ht as (l & <- & Hl). cbn [text].
      now apply Hshort.
    - unfold extract_text in E. injection E as _ <-.
      apply short_digit_runs_join. intros p Hp.
      apply in_map_iff in Hp as (l & <- & Hl). now apply Hshort.
    - cbn [bind]. eauto. }
  destruct Hret as [res Hres].
  destruct (process_receipt_nonempty _ _ _ _ Hne Hres) as (r & -> & Htot).
  now exists r.
Qed.

Lemma process_receipt_short_digit_runs_witness :
  exists r,
    process_receipt unparsed unparsed receipt_without_total_line
    = Returns (Success r)
    /\ (0 <= r_total r)%Q.
Proof.
  apply (process_receipt_short_digit_runs unparsed unparsed
           receipt_without_total_line).
  - unfold receipt_without_total_line. discriminate.
  - intros l Hl w _ Hseg. apply segment_length in Hseg.
    assert (Hlen : length (ol_text l) <= 13).
    { unfold receipt_without_total_line in Hl.
      repeat (destruct Hl as [<-|Hl]; [cbn; lia|]). destruct Hl. }
    unfold max_str_digits. lia.
Defined.

(** Whatever [process_receipt] returns on a non-empty stream is the success
    dictionary, with a total that is not negative and items whose prices
    are not negative. *)
Theorem returned_result_is_success :
  forall (sd st : str -> str) (ocr : list ocr_line) (res : result),
    ocr <> [] ->
    process_receipt sd st ocr = Returns res ->
    exists r,
      res = Success r
      /\ success res = true
      /\ (0 <= r_total r)%Q
      /\ (forall it, In it (r_items r) -> (0 <= price it)%Q).
Proof.
  intros sd st ocr res Hne H.
  destruct (process_receipt_nonempty _ _ _ _ Hne H) as (r & -> & Htot).
  exists r. split; [reflexivity|]. split; [reflexivity|].
  split; [exact Htot|].
  destruct (process_receipt_success _ _ _ _ H) as (_ & Hitems & _).
  intros it. exact (extract_items_price _ _ _ _ _ Hitems).
Qed.

Lemma returned_result_is_success_witness :
  exists res r,
    process_receipt unparsed unparsed receipt_zero_quantity = Returns res
    /\ res = Success r /\ (0 <= r_total r)%Q.
Proof.
  destruct (process_receipt unparsed unparsed receipt_zero_quantity)
    as [res|e] eqn:E; [|vm_compute in E; discriminate E].
  destruct (returned_result_is_success unparsed unparsed
              receipt_zero_quantity res) as (r & Hr & _ & Ht & _).
  - unfold receipt_zero_quantity. discriminate.
  - exact E.
  - exists res, r. auto.
Defined.
